(** * clinicontact front-end: call-session controller, phone-number
    validation, live-call metadata consumer and agent-version saving.

  A shallow embedding of the TypeScript components
  [AudioConnection], [CallPhoneNumber], [PrimaryPage],
  [AgentConfiguration] and [LiveCallDisplay], with the properties the
  specification states about them. *)

From Stdlib Require Import Ascii String ZArith Lia Bool.
From stdpp Require Import base tactics option list strings gmap.

(** ** JavaScript strings

  A JavaScript string is modelled as a [string]: the sequence of its
  characters.  Only the ASCII characters ['+'] and ['0'..'9'] are ever
  inspected by the code below. *)
Module Js.

(** [s.startsWith(p)] *)
Fixpoint startsWith (s p : string) : bool :=
  match p with
  | EmptyString => true
  | String a p' =>
      match s with
      | EmptyString => false
      | String b s' => if Ascii.eqb a b then startsWith s' p' else false
      end
  end.

(** [s.slice(n)] for [n >= 0]: the string without its first [n]
    characters (empty when it has fewer). *)
Fixpoint slice (n : nat) (s : string) : string :=
  match n with
  | O => s
  | S n' => match s with EmptyString => EmptyString | String _ s' => slice n' s' end
  end.

(** The fragment of regular-expression syntax used by the source. *)
Inductive regex : Type :=
| RNone                          (* matches nothing *)
| REmpty                         (* matches the empty string *)
| RClass (p : ascii -> bool)     (* a character class, e.g. [\d] *)
| RSeq (r1 r2 : regex)
| RAlt (r1 r2 : regex)
| RStar (r : regex).

(** [r+] is [r r*]. *)
Definition RPlus (r : regex) : regex := RSeq r (RStar r).

(** [\d]: in JavaScript exactly the characters 0-9. *)
Definition is_digit (c : ascii) : bool :=
  (48 <=? nat_of_ascii c)%nat && (nat_of_ascii c <=? 57)%nat.

Fixpoint nullable (r : regex) : bool :=
  match r with
  | RNone => false
  | REmpty => true
  | RClass _ => false
  | RSeq r1 r2 => nullable r1 && nullable r2
  | RAlt r1 r2 => nullable r1 || nullable r2
  | RStar _ => true
  end.

(** The derivative of [r] by the character [c]. *)
Fixpoint deriv (c : ascii) (r : regex) : regex :=
  match r with
  | RNone => RNone
  | REmpty => RNone
  | RClass p => if p c then REmpty else RNone
  | RSeq r1 r2 =>
      if nullable r1
      then RAlt (RSeq (deriv c r1) r2) (deriv c r2)
      else RSeq (deriv c r1) r2
  | RAlt r1 r2 => RAlt (deriv c r1) (deriv c r2)
  | RStar r1 => RSeq (deriv c r1) (RStar r1)
  end.

(** Whether the whole of [s] is matched by [r]. *)
Fixpoint matches (r : regex) (s : string) : bool :=
  match s with
  | EmptyString => nullable r
  | String c s' => matches (deriv c r) s'
  end.

(** [s.match(/^r$/) !== null]: the pattern has no flags, so [^] is
    the start of the input and [$] is its very end. *)
Definition match_anchored (r : regex) (s : string) : bool := matches r s.

(** Every character of the string satisfies [p]. *)
Fixpoint all_chars (p : ascii -> bool) (s : string) : bool :=
  match s with
  | EmptyString => true
  | String c s' => p c && all_chars p s'
  end.

End Js.

(** ** [CallPhoneNumber]: the phone-number validator *)
Module PhoneNumber.
Import Js.

(** The pattern [/^\d+$/]. *)
Definition digits_pattern : regex := RPlus (RClass is_digit).

Definition validatePhoneNumber (phoneNumber : string) : bool :=
  startsWith phoneNumber "+" &&
  match_anchored digits_pattern (slice 1 phoneNumber).

End PhoneNumber.

(** ** Asynchronous code with exceptions

  An [async] body is a computation over the component state that
  either returns or throws; [for await] walks a stream, that is the
  payloads an async generator yields before it ends or throws. *)
Module Eff.

Definition exn : Type := string.

Inductive stream_end : Type :=
| EndOfStream
| StreamThrows (e : exn).

Record stream (A : Type) : Type :=
  { items : list A; ending : stream_end }.
Arguments items {A} _.
Arguments ending {A} _.

(** What the body of a loop asks for: go on, or [break]. *)
Inductive loop_ctl : Type := Continue | Break.

Section WithState.
Context {S : Type}.

Definition M (A : Type) : Type := S -> (A + exn) * S.

Definition ret {A} (a : A) : M A := fun st => (inl a, st).

Definition bind {A B} (m : M A) (k : A -> M B) : M B :=
  fun st =>
    match m st with
    | (inl a, st') => k a st'
    | (inr e, st') => (inr e, st')
    end.

Definition throw {A} (e : exn) : M A := fun st => (inr e, st).

Definition modify (f : S -> S) : M unit := fun st => (inl tt, f st).

(** [try { body } catch (e) { handler(e) }] *)
Definition try_catch {A} (body : M A) (handler : exn -> M A) : M A :=
  fun st =>
    match body st with
    | (inl a, st') => (inl a, st')
    | (inr e, st') => handler e st'
    end.

(** [for await (const x of s) { body(x) }] *)
Fixpoint for_await_items {A} (xs : list A) (e : stream_end)
         (body : A -> M loop_ctl) : M unit :=
  match xs with
  | [] =>
      match e with
      | EndOfStream => ret tt
      | StreamThrows err => throw err
      end
  | x :: xs' =>
      bind (body x) (fun c =>
        match c with
        | Break => ret tt
        | Continue => for_await_items xs' e body
        end)
  end.

Definition for_await {A} (s : stream A) (body : A -> M loop_ctl) : M unit :=
  for_await_items (items s) (ending s) body.

End WithState.

(** A value used as a condition: [null] and the empty string are
    falsy. *)
Definition truthy (o : option string) : bool :=
  match o with
  | None => false
  | Some s => negb (String.eqb s "")
  end.

End Eff.

Declare Scope eff_scope.
Delimit Scope eff_scope with eff.
Notation "m >>> k" := (Eff.bind m (fun _ => k))
  (at level 100, right associativity) : eff_scope.

(** ** [AgentConfiguration]: saving a new agent version *)
Module AgentConfig.

Record DocumentMetadata : Type :=
  { doc_id : string; doc_name : string }.

(** The fields of [Agent] that the component reads. *)
Record Agent : Type :=
  { id : string;
    base_id : string;
    name : string;
    system_message : string;
    active : bool;
    created_at : string;
    document_metadata : list DocumentMetadata }.

Inductive toast : Type :=
| ToastSuccess (msg : string)
| ToastError (msg : string).

(** [props.agents], [props.agentId] and the hooks of the component.
    The sample fields derived by [extractFields] are not part of the
    agent collection and are left out. *)
Record state : Type :=
  { agents : list Agent;
    agentId : option (string * string);   (* baseId, versionId *)
    saveLoading : bool;
    newVersion : option Agent;
    toasts : list toast }.

(** [{ ...agent, active: false }] *)
Definition deactivate (agent : Agent) : Agent :=
  {| id := id agent;
     base_id := base_id agent;
     name := name agent;
     system_message := system_message agent;
     active := false;
     created_at := created_at agent;
     document_metadata := document_metadata agent |}.

(** [handleSaveVersion], given what [createNewAgentVersion] answers
    ([None] is its [null]). *)
Definition handleSaveVersion (response : option Agent) (st : state) : state :=
  match newVersion st with
  | None => st
  | Some _ =>
      match response with
      | Some r =>
          {| agents := r :: map deactivate (agents st);
             agentId := Some (base_id r, id r);
             saveLoading := false;
             newVersion := None;
             toasts := toasts st ++ [ToastSuccess "Version saved"] |}
      | None =>
          {| agents := agents st;
             agentId := agentId st;
             saveLoading := false;
             newVersion := newVersion st;
             toasts := toasts st ++ [ToastError "Failed to save version"] |}
      end
  end.

(** The versions of base [b] that are marked active. *)
Definition active_of (b : string) (l : list Agent) : list Agent :=
  List.filter (fun a => String.eqb (base_id a) b && active a) l.

(** The base identifiers the agent selector offers:
    [props.agents.filter((agent) => agent.active)], keyed by base. *)
Definition selectable_bases (l : list Agent) : list string :=
  map base_id (List.filter active l).

End AgentConfig.

(** ** [LiveCallDisplay]: the live-call metadata consumer *)
Module LiveCall.
Import Eff.

Section WithSegment.
(** [SpeakerSegment] of [@/types]; the consumer only stores it. *)
Context {SpeakerSegment : Type}.

(** A payload of [streamMetadata]: [{ type, data }]. *)
Record payload : Type :=
  { p_type : string; p_data : list SpeakerSegment }.

Inductive console_entry : Type :=
| ConsoleLog (p : payload)
| ConsoleError (e : exn).

Record state : Type :=
  { speakerSegments : list SpeakerSegment;
    callEnded : bool;
    console : list console_entry }.

Definition setSpeakerSegments (v : list SpeakerSegment) (st : state) : state :=
  {| speakerSegments := v; callEnded := callEnded st; console := console st |}.

Definition setCallEnded (b : bool) (st : state) : state :=
  {| speakerSegments := speakerSegments st; callEnded := b; console := console st |}.

Definition console_write (e : console_entry) (st : state) : state :=
  {| speakerSegments := speakerSegments st;
     callEnded := callEnded st;
     console := console st ++ [e] |}.

Definition is_call_end (p : payload) : bool := String.eqb (p_type p) "call_end".

(** The body of the [for await] loop. *)
Definition on_payload (p : payload) : M (S:=state) loop_ctl :=
  (modify (console_write (ConsoleLog p)) >>>
   if is_call_end p
   then modify (setCallEnded true) >>> ret Break
   else modify (setSpeakerSegments (p_data p)) >>> ret Continue)%eff.

Definition runMetadataStream (phoneCallId : option string)
           (s : stream payload) : M (S:=state) unit :=
  if negb (truthy phoneCallId) then ret tt
  else
    try_catch
      (for_await s on_payload)
      (fun e => modify (console_write (ConsoleError e))).

(** The data of the last payload of [ps], or [init] when there is
    none. *)
Definition last_data (init : list SpeakerSegment) (ps : list payload)
  : list SpeakerSegment :=
  match last ps with
  | Some p => p_data p
  | None => init
  end.

End WithSegment.
Arguments payload : clear implicits.
Arguments state : clear implicits.
Arguments console_entry : clear implicits.

End LiveCall.

(** ** [PrimaryPage]: placing an outbound phone call *)
Module Phone.
Import Eff.

Inductive Speaker : Type := User | Assistant.

(** A payload of [streamSpeaker]; the timestamp is kept as sent. *)
Record SpeakerEvent : Type :=
  { timestamp : Z; speaker : Speaker }.

Inductive console_entry : Type :=
| ConsoleLog (intervals : list SpeakerEvent)
| ConsoleError (e : exn).

Record state : Type :=
  { phoneCallId : option string;
    isPlaying : bool;
    speakerIntervals : list SpeakerEvent;
    (* [audioRef.current]: [None] while no element is mounted,
       otherwise the element's [src] *)
    audio : option string;
    toasts : list string;
    console : list console_entry }.

Definition setPhoneCallId (v : option string) (st : state) : state :=
  {| phoneCallId := v; isPlaying := isPlaying st;
     speakerIntervals := speakerIntervals st; audio := audio st;
     toasts := toasts st; console := console st |}.

Definition setIsPlaying (b : bool) (st : state) : state :=
  {| phoneCallId := phoneCallId st; isPlaying := b;
     speakerIntervals := speakerIntervals st; audio := audio st;
     toasts := toasts st; console := console st |}.

Definition set_speakerIntervals (v : list SpeakerEvent) (st : state) : state :=
  {| phoneCallId := phoneCallId st; isPlaying := isPlaying st;
     speakerIntervals := v; audio := audio st;
     toasts := toasts st; console := console st |}.

Definition set_audio_src (src : string) (st : state) : state :=
  {| phoneCallId := phoneCallId st; isPlaying := isPlaying st;
     speakerIntervals := speakerIntervals st;
     audio := match audio st with Some _ => Some src | None => None end;
     toasts := toasts st; console := console st |}.

Definition toast_error (msg : string) (st : state) : state :=
  {| phoneCallId := phoneCallId st; isPlaying := isPlaying st;
     speakerIntervals := speakerIntervals st; audio := audio st;
     toasts := toasts st ++ [msg]; console := console st |}.

Definition console_write (e : console_entry) (st : state) : state :=
  {| phoneCallId := phoneCallId st; isPlaying := isPlaying st;
     speakerIntervals := speakerIntervals st; audio := audio st;
     toasts := toasts st; console := console st ++ [e] |}.

(** The loop body: push the payload, log the buffer. *)
Definition on_payload (payload : SpeakerEvent) : M (S:=state) loop_ctl :=
  (modify (fun st => set_speakerIntervals (speakerIntervals st ++ [payload]) st) >>>
   modify (fun st => console_write (ConsoleLog (speakerIntervals st)) st) >>>
   ret Continue)%eff.

(** The background task started once the call is placed. *)
Definition speaker_task (s : stream SpeakerEvent) : M (S:=state) unit :=
  (try_catch
     (for_await s on_payload)
     (fun e => modify (console_write (ConsoleError e))) >>>
   modify (setIsPlaying false) >>>
   modify (setPhoneCallId None) >>>
   modify (set_speakerIntervals []))%eff.

(** [handleCallPhoneNumber], given the answer of [outboundCall] to the
    number and persona submitted (the call id, [None] for [null]) and
    the speaker stream of the placed call.  The background task is run
    to its end. *)
Definition handleCallPhoneNumber (response : option string)
           (s : stream SpeakerEvent) : M (S:=state) unit :=
  match response with
  | None => modify (toast_error "Failed to start call, please try again")
  | Some phone_call_id =>
      (modify (setPhoneCallId (Some phone_call_id)) >>>
       modify (setIsPlaying true) >>>
       modify (set_audio_src ("/api/v1/phone/stream-audio/" +:+ phone_call_id)) >>>
       speaker_task s)%eff
  end.

(** The console lines of the loop: the buffer after each push. *)
Fixpoint buffer_logs (buf xs : list SpeakerEvent) : list console_entry :=
  match xs with
  | [] => []
  | x :: xs' => ConsoleLog (buf ++ [x]) :: buffer_logs (buf ++ [x]) xs'
  end.

End Phone.

(** ** [AudioConnection]: the peer-to-peer call-session controller

  The component is event driven.  Its state is the values of its
  hooks together with what the browser holds for it: the listeners
  registered on data channels, the calls of [startSession] suspended
  at an [await], the pending timers, the teardowns suspended at
  [await storeSession(...)], and the record of the calls it made.  A
  [label] is one thing that happens to it; [step] runs the handler of
  that event up to its next suspension point. *)
Module AudioConnection.
Import Eff.

(** The result of [JSON.parse] on a well-formed text.  Values are
    only inspected at their top level, so no induction principle is
    generated. *)
#[local] Unset Elimination Schemes.
Inductive json : Type :=
| JNull
| JBool (b : bool)
| JNumber (n : Z)
| JString (s : string)
| JArray (l : list json)
| JObject (fields : list (string * json)).
#[local] Set Elimination Schemes.

(** The own property [k] of a parsed object; the last of several
    bindings of one key is the one [JSON.parse] keeps. *)
Fixpoint lookup_field (k : string) (fields : list (string * json)) : option json :=
  match fields with
  | [] => None
  | (k', v) :: rest =>
      match lookup_field k rest with
      | Some w => Some w
      | None => if String.eqb k' k then Some v else None
      end
  end.

(** [event.k] for [k] one of "type" and "name": [inr] is the
    TypeError of reading a property of [null], [inl None] is
    [undefined]. *)
Definition get_property (k : string) (event : json) : option json + exn :=
  match event with
  | JNull => inr "TypeError"
  | JObject fields => inl (lookup_field k fields)
  | _ => inl None
  end.

(** [v === s] for a string literal [s]. *)
Definition strict_eq_string (v : option json) (s : string) : bool :=
  match v with
  | Some (JString t) => String.eqb t s
  | _ => false
  end.

(** [event.type === "response.function_call_arguments.done" &&
     event.name === "hang_up"] *)
Definition is_hang_up (event : json) : bool + exn :=
  match get_property "type" event with
  | inr e => inr e
  | inl t =>
      if strict_eq_string t "response.function_call_arguments.done"
      then match get_property "name" event with
           | inr e => inr e
           | inl n => inl (strict_eq_string n "hang_up")
           end
      else inl false
  end.

(** What [createSession] resolves to. *)
Record token : Type :=
  { tok_id : string; tok_value : string; tok_expires_at : Z }.

(** [props.userInfo] *)
Definition user_info : Type := list (string * string).

(** A peer connection, named by the order of creation.  A connection
    gets one data channel ("oai-events"), named like it. *)
Definition conn : Type := nat.

(** What a [stopSession] closure has captured from its render. *)
Record closure : Type :=
  { cl_dataChannel : option conn; cl_userInfo : user_info }.

(** A pending [setTimeout] of the teardown. *)
Record timer : Type :=
  { due : N; env : closure }.

(** Where a call of [startSession] is suspended. *)
Inductive phase : Type :=
| AwaitCredential
| AwaitMedia (key : string) (pc : conn)
| AwaitOffer (key : string) (pc : conn)
| AwaitLocalDescription (key : string) (pc : conn)
| AwaitSdpResponse (pc : conn)
| AwaitSdpText (pc : conn)
| AwaitRemoteDescription (pc : conn)
| Returned
| Threw.

Inductive effect : Type :=
| CallCreateSession (u : user_info)
| CallGetUserMedia
| CallRealtime (key : string)
| CallStoreSession (sid : string) (data : list json) (u : user_info)
| ToastError (msg : string)
| ChannelClose (c : conn)
| ConnectionClose (pc : conn)
| Uncaught (e : exn).

Record state : Type :=
  { (* hooks *)
    isSessionActive : bool;
    settingUpSession : bool;
    dataChannel : option conn;
    sessionData : list json;
    sessionId : option string;
    peerConnection : option conn;
    (* props *)
    userInfo : user_info;
    (* browser *)
    listeners : list (conn * closure);
    starts : list phase;
    timers : list timer;
    storing : nat;
    now : N;
    fresh : nat;
    effects : list effect }.

Definition init (u : user_info) : state :=
  {| isSessionActive := false; settingUpSession := false;
     dataChannel := None; sessionData := []; sessionId := None;
     peerConnection := None; userInfo := u; listeners := [];
     starts := []; timers := []; storing := 0; now := 0%N; fresh := 0;
     effects := [] |}.

Definition setIsSessionActive (b : bool) (st : state) : state :=
  {| isSessionActive := b;
     settingUpSession := settingUpSession st;
     dataChannel := dataChannel st;
     sessionData := sessionData st;
     sessionId := sessionId st;
     peerConnection := peerConnection st;
     userInfo := userInfo st;
     listeners := listeners st;
     starts := starts st;
     timers := timers st;
     storing := storing st;
     now := now st;
     fresh := fresh st;
     effects := effects st |}.

Definition setSettingUpSession (b : bool) (st : state) : state :=
  {| isSessionActive := isSessionActive st;
     settingUpSession := b;
     dataChannel := dataChannel st;
     sessionData := sessionData st;
     sessionId := sessionId st;
     peerConnection := peerConnection st;
     userInfo := userInfo st;
     listeners := listeners st;
     starts := starts st;
     timers := timers st;
     storing := storing st;
     now := now st;
     fresh := fresh st;
     effects := effects st |}.

Definition set_dataChannel (v : option conn) (st : state) : state :=
  {| isSessionActive := isSessionActive st;
     settingUpSession := settingUpSession st;
     dataChannel := v;
     sessionData := sessionData st;
     sessionId := sessionId st;
     peerConnection := peerConnection st;
     userInfo := userInfo st;
     listeners := listeners st;
     starts := starts st;
     timers := timers st;
     storing := storing st;
     now := now st;
     fresh := fresh st;
     effects := effects st |}.

Definition set_sessionData (v : list json) (st : state) : state :=
  {| isSessionActive := isSessionActive st;
     settingUpSession := settingUpSession st;
     dataChannel := dataChannel st;
     sessionData := v;
     sessionId := sessionId st;
     peerConnection := peerConnection st;
     userInfo := userInfo st;
     listeners := listeners st;
     starts := starts st;
     timers := timers st;
     storing := storing st;
     now := now st;
     fresh := fresh st;
     effects := effects st |}.

Definition set_sessionId (v : option string) (st : state) : state :=
  {| isSessionActive := isSessionActive st;
     settingUpSession := settingUpSession st;
     dataChannel := dataChannel st;
     sessionData := sessionData st;
     sessionId := v;
     peerConnection := peerConnection st;
     userInfo := userInfo st;
     listeners := listeners st;
     starts := starts st;
     timers := timers st;
     storing := storing st;
     now := now st;
     fresh := fresh st;
     effects := effects st |}.

Definition set_peerConnection (v : option conn) (st : state) : state :=
  {| isSessionActive := isSessionActive st;
     settingUpSession := settingUpSession st;
     dataChannel := dataChannel st;
     sessionData := sessionData st;
     sessionId := sessionId st;
     peerConnection := v;
     userInfo := userInfo st;
     listeners := listeners st;
     starts := starts st;
     timers := timers st;
     storing := storing st;
     now := now st;
     fresh := fresh st;
     effects := effects st |}.

Definition set_userInfo (v : user_info) (st : state) : state :=
  {| isSessionActive := isSessionActive st;
     settingUpSession := settingUpSession st;
     dataChannel := dataChannel st;
     sessionData := sessionData st;
     sessionId := sessionId st;
     peerConnection := peerConnection st;
     userInfo := v;
     listeners := listeners st;
     starts := starts st;
     timers := timers st;
     storing := storing st;
     now := now st;
     fresh := fresh st;
     effects := effects st |}.

Definition set_listeners (v : list (conn * closure)) (st : state) : state :=
  {| isSessionActive := isSessionActive st;
     settingUpSession := settingUpSession st;
     dataChannel := dataChannel st;
     sessionData := sessionData st;
     sessionId := sessionId st;
     peerConnection := peerConnection st;
     userInfo := userInfo st;
     listeners := v;
     starts := starts st;
     timers := timers st;
     storing := storing st;
     now := now st;
     fresh := fresh st;
     effects := effects st |}.

Definition set_starts (v : list phase) (st : state) : state :=
  {| isSessionActive := isSessionActive st;
     settingUpSession := settingUpSession st;
     dataChannel := dataChannel st;
     sessionData := sessionData st;
     sessionId := sessionId st;
     peerConnection := peerConnection st;
     userInfo := userInfo st;
     listeners := listeners st;
     starts := v;
     timers := timers st;
     storing := storing st;
     now := now st;
     fresh := fresh st;
     effects := effects st |}.

Definition set_timers (v : list timer) (st : state) : state :=
  {| isSessionActive := isSessionActive st;
     settingUpSession := settingUpSession st;
     dataChannel := dataChannel st;
     sessionData := sessionData st;
     sessionId := sessionId st;
     peerConnection := peerConnection st;
     userInfo := userInfo st;
     listeners := listeners st;
     starts := starts st;
     timers := v;
     storing := storing st;
     now := now st;
     fresh := fresh st;
     effects := effects st |}.

Definition set_storing (v : nat) (st : state) : state :=
  {| isSessionActive := isSessionActive st;
     settingUpSession := settingUpSession st;
     dataChannel := dataChannel st;
     sessionData := sessionData st;
     sessionId := sessionId st;
     peerConnection := peerConnection st;
     userInfo := userInfo st;
     listeners := listeners st;
     starts := starts st;
     timers := timers st;
     storing := v;
     now := now st;
     fresh := fresh st;
     effects := effects st |}.

Definition set_now (v : N) (st : state) : state :=
  {| isSessionActive := isSessionActive st;
     settingUpSession := settingUpSession st;
     dataChannel := dataChannel st;
     sessionData := sessionData st;
     sessionId := sessionId st;
     peerConnection := peerConnection st;
     userInfo := userInfo st;
     listeners := listeners st;
     starts := starts st;
     timers := timers st;
     storing := storing st;
     now := v;
     fresh := fresh st;
     effects := effects st |}.

Definition set_fresh (v : nat) (st : state) : state :=
  {| isSessionActive := isSessionActive st;
     settingUpSession := settingUpSession st;
     dataChannel := dataChannel st;
     sessionData := sessionData st;
     sessionId := sessionId st;
     peerConnection := peerConnection st;
     userInfo := userInfo st;
     listeners := listeners st;
     starts := starts st;
     timers := timers st;
     storing := storing st;
     now := now st;
     fresh := v;
     effects := effects st |}.

Definition emit (e : effect) (st : state) : state :=
  {| isSessionActive := isSessionActive st;
     settingUpSession := settingUpSession st;
     dataChannel := dataChannel st;
     sessionData := sessionData st;
     sessionId := sessionId st;
     peerConnection := peerConnection st;
     userInfo := userInfo st;
     listeners := listeners st;
     starts := starts st;
     timers := timers st;
     storing := storing st;
     now := now st;
     fresh := fresh st;
     effects := effects st ++ [e] |}.

(** The closure registered on channel [c], if it has listeners and
    is not closed. *)
Fixpoint listener_of (c : conn) (l : list (conn * closure)) : option closure :=
  match l with
  | [] => None
  | (c', cl) :: rest => if Nat.eqb c' c then Some cl else listener_of c rest
  end.

(** A closed channel delivers nothing more. *)
Definition drop_listeners (c : conn) (l : list (conn * closure))
  : list (conn * closure) :=
  List.filter (fun r => negb (Nat.eqb (fst r) c)) l.

(** [dataChannel.close()] *)
Definition close_channel (c : conn) (st : state) : state :=
  set_listeners (drop_listeners c (listeners st)) (emit (ChannelClose c) st).

(** [peerConnection.current.close()]: closes its data channel too. *)
Definition close_connection (pc : conn) (st : state) : state :=
  set_listeners (drop_listeners pc (listeners st)) (emit (ConnectionClose pc) st).

(** [setDataChannel(dc)] for a new channel, and the effect that the
    change of [dataChannel] triggers: the listeners registered on it
    close over the render in which [dataChannel] is [dc]. *)
Definition setDataChannel_new (dc : conn) (st : state) : state :=
  set_listeners
    (listeners st ++ [(dc, {| cl_dataChannel := Some dc; cl_userInfo := userInfo st |})])
    (set_dataChannel (Some dc) st).

(** [stopSession(timeout)], as the closure [cl] runs it. *)
Definition stopSession (timeout : N) (cl : closure) (st : state) : state :=
  let st := setIsSessionActive false st in
  set_timers (timers st ++ [{| due := (now st + timeout)%N; env := cl |}]) st.

(** The four assignments that end the teardown. *)
Definition clear_session (st : state) : state :=
  set_sessionData [] (set_sessionId None (set_peerConnection None (set_dataChannel None st))).

(** The callback of the timer, up to the end or to
    [await storeSession(...)].  The call is recorded with the log as
    it is when the call is made. *)
Definition teardown (cl : closure) (st : state) : state :=
  let st := match cl_dataChannel cl with
            | Some c => close_channel c st
            | None => st
            end in
  let st := match peerConnection st with
            | Some pc => close_connection pc st
            | None => st
            end in
  match sessionId st with
  | Some sid =>
      if truthy (sessionId st) && (0 <? length (sessionData st))
      then set_storing (S (storing st))
             (emit (CallStoreSession sid (sessionData st) (cl_userInfo cl)) st)
      else clear_session st
  | None => clear_session st
  end.

(** The rest of the teardown, when [storeSession] has returned (it
    catches its own errors). *)
Definition teardown_resume (st : state) : state :=
  clear_session (set_storing (pred (storing st)) st).

(** The message listener of a channel, on the outcome of
    [JSON.parse(e.data)] ([None]: a SyntaxError). *)
Definition on_message (cl : closure) (data : option json) (st : state) : state :=
  match data with
  | None => emit (Uncaught "SyntaxError") st
  | Some event =>
      let st := set_sessionData (sessionData st ++ [event]) st in
      match is_hang_up event with
      | inr e => emit (Uncaught e) st
      | inl true => stopSession 10000%N cl st
      | inl false => st
      end
  end.

(** The open listener of a channel. *)
Definition on_open (st : state) : state :=
  setSettingUpSession false (setIsSessionActive true st).

(** [startSession] up to [await createSession(...)]. *)
Definition startSession (st : state) : state :=
  let st := setSettingUpSession true st in
  let st := emit (CallCreateSession (userInfo st)) st in
  set_starts (starts st ++ [AwaitCredential]) st.

(** [startSession] from the answer of [createSession] to
    [await getUserMedia(...)].  The [ontrack] handler set on the new
    connection only feeds the audio element and is left out. *)
Definition on_credential (i : nat) (tokenResponse : option token) (st : state) : state :=
  match tokenResponse with
  | None =>
      let st := setSettingUpSession false st in
      let st := emit (ToastError "Failed to start call, please try again") st in
      set_starts (<[i := Returned]> (starts st)) st
  | Some t =>
      let st := set_sessionId (Some (tok_id t)) st in
      let pc := fresh st in
      let st := set_fresh (S pc) st in
      let st := emit CallGetUserMedia st in
      set_starts (<[i := AwaitMedia (tok_value t) pc]> (starts st)) st
  end.

(** How an awaited promise settles. *)
Inductive settled : Type :=
| Fulfilled
| Rejected (e : exn).

(** [startSession] from one [await] to the next, when the awaited
    promise is fulfilled. *)
Definition on_fulfilled (i : nat) (ph : phase) (st : state) : option state :=
  match ph with
  | AwaitMedia key pc =>
      let st := setDataChannel_new pc st in
      Some (set_starts (<[i := AwaitOffer key pc]> (starts st)) st)
  | AwaitOffer key pc =>
      Some (set_starts (<[i := AwaitLocalDescription key pc]> (starts st)) st)
  | AwaitLocalDescription key pc =>
      let st := emit (CallRealtime key) st in
      Some (set_starts (<[i := AwaitSdpResponse pc]> (starts st)) st)
  | AwaitSdpResponse pc =>
      Some (set_starts (<[i := AwaitSdpText pc]> (starts st)) st)
  | AwaitSdpText pc =>
      Some (set_starts (<[i := AwaitRemoteDescription pc]> (starts st)) st)
  | AwaitRemoteDescription pc =>
      let st := set_peerConnection (Some pc) st in
      Some (set_starts (<[i := Returned]> (starts st)) st)
  | AwaitCredential | Returned | Threw => None
  end.

(** ... and when it is rejected: nothing in [startSession] catches,
    so the call ends there. *)
Definition on_rejected (i : nat) (ph : phase) (e : exn) (st : state) : option state :=
  match ph with
  | AwaitCredential | Returned | Threw => None
  | _ => Some (set_starts (<[i := Threw]> (starts st)) (emit (Uncaught e) st))
  end.

Inductive label : Type :=
| Click                                        (* the button *)
| CredentialReturned (i : nat) (r : option token)
| Settled (i : nat) (r : settled)
| ChannelOpen (c : conn)
| ChannelMessage (c : conn) (data : option json)
| Advance (dt : N)                             (* time passes *)
| TimerFire (k : nat)
| StoreReturned
| PropsChange (u : user_info).

(** One event; [None] when it cannot happen in [st]. *)
Definition step (st : state) (l : label) : option state :=
  match l with
  | Click =>
      if isSessionActive st
      then Some (stopSession 0%N
                   {| cl_dataChannel := dataChannel st; cl_userInfo := userInfo st |} st)
      else Some (startSession st)
  | CredentialReturned i r =>
      match starts st !! i with
      | Some AwaitCredential => Some (on_credential i r st)
      | _ => None
      end
  | Settled i r =>
      match starts st !! i with
      | Some ph =>
          match r with
          | Fulfilled => on_fulfilled i ph st
          | Rejected e => on_rejected i ph e st
          end
      | None => None
      end
  | ChannelOpen c =>
      match listener_of c (listeners st) with
      | Some _ => Some (on_open st)
      | None => None
      end
  | ChannelMessage c data =>
      match listener_of c (listeners st) with
      | Some cl => Some (on_message cl data st)
      | None => None
      end
  | Advance dt => Some (set_now (now st + dt)%N st)
  | TimerFire k =>
      match timers st !! k with
      | Some t =>
          if (due t <=? now st)%N
          then Some (teardown (env t) (set_timers (delete k (timers st)) st))
          else None
      | None => None
      end
  | StoreReturned =>
      match storing st with
      | O => None
      | S _ => Some (teardown_resume st)
      end
  | PropsChange u => Some (set_userInfo u st)
  end.

Fixpoint run (st : state) (tr : list label) : option state :=
  match tr with
  | [] => Some st
  | l :: tr' =>
      match step st l with
      | Some st' => run st' tr'
      | None => None
      end
  end.

(** The [storeSession] calls made so far. *)
Definition store_call (e : effect) : option (string * list json * user_info) :=
  match e with
  | CallStoreSession sid data u => Some (sid, data, u)
  | _ => None
  end.

Definition stores (st : state) : list (string * list json * user_info) :=
  omap store_call (effects st).

(** The error notifications shown so far. *)
Definition toast_of (e : effect) : option string :=
  match e with
  | ToastError msg => Some msg
  | _ => None
  end.

Definition toasts (st : state) : list string := omap toast_of (effects st).

(** The events that the messages of a trace carry, in order. *)
Definition arrival (l : label) : option json :=
  match l with
  | ChannelMessage _ (Some event) => Some event
  | _ => None
  end.

Definition arrivals (tr : list label) : list json := omap arrival tr.

(** The steps in which a teardown runs or resumes. *)
Definition is_teardown (l : label) : bool :=
  match l with
  | TimerFire _ | StoreReturned => true
  | _ => false
  end.

(** The steps in which a credential is received, that is in which a
    session gets its identifier. *)
Definition is_new_session (l : label) : bool :=
  match l with
  | CredentialReturned _ (Some _) => true
  | _ => false
  end.

(** No timer fires while a teardown awaits [storeSession]. *)
Fixpoint serial (st : state) (tr : list label) : bool :=
  match tr with
  | [] => true
  | l :: tr' =>
      match l with
      | TimerFire _ => Nat.eqb (storing st) 0
      | _ => true
      end
      && match step st l with
         | Some st' => serial st' tr'
         | None => true
         end
  end.

End AudioConnection.

(** ** Concrete runs of the controller *)
Module Scenarios.
Import AudioConnection.

Definition persona : user_info :=
  [("name", "Joe Smith"); ("email", "joe_smith@gmail.com");
   ("age", "30"); ("location", "New York, NY")].

Definition token1 : token :=
  {| tok_id := "sess_1"; tok_value := "ek_1"; tok_expires_at := 1700000000 |}.

Definition token2 : token :=
  {| tok_id := "sess_2"; tok_value := "ek_2"; tok_expires_at := 1700000600 |}.

Definition hang_up_event : json :=
  JObject [("type", JString "response.function_call_arguments.done");
           ("name", JString "hang_up")].

Definition speech_event : json :=
  JObject [("type", JString "input_audio_buffer.speech_started")].

Definition transcript_event : json :=
  JObject [("type", JString "response.audio_transcript.done");
           ("transcript", JString "Goodbye")].

(** The five awaits of [startSession] after [getUserMedia], all
    fulfilled, for the call number [i]. *)
Definition negotiate (i : nat) : list label :=
  [Settled i Fulfilled; Settled i Fulfilled; Settled i Fulfilled;
   Settled i Fulfilled; Settled i Fulfilled].

(** A session is started and its channel opens. *)
Definition connect : list label :=
  [Click; CredentialReturned 0 (Some token1); Settled 0 Fulfilled]
    ++ negotiate 0 ++ [ChannelOpen 0].

(** The credential arrives, the microphone is refused. *)
Definition microphone_refused : list label :=
  [Click; CredentialReturned 0 (Some token1); Settled 0 (Rejected "NotAllowedError")].

(** The backend refuses the credential. *)
Definition credential_refused : list label :=
  [Click; CredentialReturned 0 None].

(** The agent hangs up; within the grace delay the user starts a
    second session; the deferred teardown of the first session then
    runs; the second session receives an event and is stopped by
    hand.  The last teardown is left to fire. *)
Definition restart_within_grace : list label :=
  connect
    ++ [ChannelMessage 0 (Some hang_up_event);
        Advance 3000;
        Click; CredentialReturned 1 (Some token2); Settled 1 Fulfilled;
        Advance 7000;
        TimerFire 0; StoreReturned]
    ++ negotiate 1
    ++ [ChannelOpen 1; ChannelMessage 1 (Some speech_event); Click].

(** Two hang-up events 5 ms apart; the second deferred teardown fires
    while the first awaits [storeSession]. *)
Definition hang_up_twice : list label :=
  connect
    ++ [ChannelMessage 0 (Some hang_up_event);
        Advance 5;
        ChannelMessage 0 (Some hang_up_event);
        Advance 9995;
        TimerFire 0;
        Advance 5;
        TimerFire 0].

(** Two more events arrive within the grace delay of a hang-up. *)
Definition trailing : list label :=
  [Advance 4000;
   ChannelMessage 0 (Some transcript_event);
   Advance 5999;
   ChannelMessage 0 (Some speech_event)].


(** A session that receives one event and is stopped by hand. *)
Definition stop_by_hand : list label :=
  connect ++ [ChannelMessage 0 (Some speech_event); Click].

(** Two hang-up events 5 ms apart whose teardowns do not overlap: the
    [storeSession] call of the first returns before the second
    fires. *)
Definition hang_up_twice_serial : list label :=
  [ChannelMessage 0 (Some hang_up_event);
   Advance 5;
   ChannelMessage 0 (Some hang_up_event);
   Advance 9995;
   TimerFire 0;
   StoreReturned;
   Advance 5;
   TimerFire 0].

(** The state a run from the initial state ends in. *)
Definition after (tr : list label) : state :=
  match run (init persona) tr with
  | Some st => st
  | None => init persona
  end.

(** Two agents with one version each; the first is edited and
    saved, and the backend answers with its new version. *)
Definition nurse_v1 : AgentConfig.Agent :=
  {| AgentConfig.id := "v1"; AgentConfig.base_id := "nurse";
     AgentConfig.name := "Nurse"; AgentConfig.system_message := "Hi {name}";
     AgentConfig.active := true; AgentConfig.created_at := "2025-01-01";
     AgentConfig.document_metadata := [] |}.

Definition scheduler_v1 : AgentConfig.Agent :=
  {| AgentConfig.id := "v2"; AgentConfig.base_id := "scheduler";
     AgentConfig.name := "Scheduler"; AgentConfig.system_message := "Hello";
     AgentConfig.active := true; AgentConfig.created_at := "2025-01-02";
     AgentConfig.document_metadata := [] |}.

Definition nurse_edit : AgentConfig.Agent :=
  {| AgentConfig.id := "v1"; AgentConfig.base_id := "nurse";
     AgentConfig.name := "Nurse"; AgentConfig.system_message := "Hi {name}, you are {age}";
     AgentConfig.active := true; AgentConfig.created_at := "2025-01-01";
     AgentConfig.document_metadata := [] |}.

Definition nurse_v2 : AgentConfig.Agent :=
  {| AgentConfig.id := "v3"; AgentConfig.base_id := "nurse";
     AgentConfig.name := "Nurse"; AgentConfig.system_message := "Hi {name}, you are {age}";
     AgentConfig.active := true; AgentConfig.created_at := "2025-01-03";
     AgentConfig.document_metadata := [] |}.

Definition editing : AgentConfig.state :=
  {| AgentConfig.agents := [nurse_v1; scheduler_v1];
     AgentConfig.agentId := Some ("nurse", "v1");
     AgentConfig.saveLoading := false;
     AgentConfig.newVersion := Some nurse_edit;
     AgentConfig.toasts := [] |}.

End Scenarios.

(** ** What a run of the controller shows from outside *)
Module AudioConnectionLog.
Import AudioConnection.

Definition is_create (e : effect) : bool :=
  match e with
  | CallCreateSession _ => true
  | _ => false
  end.

(** The number of [createSession] calls made so far. *)
Definition creates (st : state) : nat := length (List.filter is_create (effects st)).

Definition is_click (l : label) : bool :=
  match l with
  | Click => true
  | _ => false
  end.

(** The number of clicks on the button in a trace. *)
Definition clicks (tr : list label) : nat := length (List.filter is_click tr).

(** A listener closes over the channel it is registered on. *)
Definition closes_over_own_channel (r : conn * closure) : Prop :=
  cl_dataChannel (snd r) = Some (fst r).

(** A [storeSession] call that carries an identifier and events. *)
Definition well_formed_store (x : string * list json * user_info) : Prop :=
  fst (fst x) <> "" /\ snd (fst x) <> [].

End AudioConnectionLog.

(** ** Searching a string with a regular expression *)
Module JsMatch.
Import Js.

(** The longest prefix of [s] that [r] matches, with what follows it.
    (The patterns searched for below match at most one prefix of any
    string, so the order in which an engine tries the alternatives does
    not show.) *)
Fixpoint match_prefix (r : regex) (s : string) : option (string * string) :=
  match s with
  | EmptyString => if nullable r then Some (EmptyString, EmptyString) else None
  | String c s' =>
      match match_prefix (deriv c r) s' with
      | Some (m, rest) => Some (String c m, rest)
      | None => if nullable r then Some (EmptyString, s) else None
      end
  end.

(** [s.match(/r/g)] for a pattern that does not match the empty
    string: the matches found from left to right, each search starting
    where the previous match ended; [skip] counts the characters of [s]
    that still belong to the previous match.  The empty list stands
    for [null]. *)
Fixpoint match_all_from (r : regex) (s : string) (skip : nat) : list string :=
  match s with
  | EmptyString => []
  | String c s' =>
      match skip with
      | S k => match_all_from r s' k
      | O =>
          match match_prefix r s with
          | Some (String a m, _) =>
              String a m :: match_all_from r s' (String.length m)
          | _ => match_all_from r s' 0
          end
      end
  end.

Definition match_all (r : regex) (s : string) : list string :=
  match_all_from r s 0.

(** [s.slice(b, -e)] for [b >= 0] and [e > 0]. *)
Definition slice_inner (b e : nat) (s : string) : string :=
  String.substring b (String.length s - e - b) s.

(** The character [c] occurs nowhere in [s]. *)
Definition lacks (c : ascii) (s : string) : bool :=
  all_chars (fun x => negb (Ascii.eqb x c)) s.

End JsMatch.

(** ** Objects used as records of strings

    An object literal inherits from [Object.prototype]: the [in]
    operator and a property read see the inherited members too, and an
    assignment to [__proto__] goes to the inherited setter, which
    ignores a value that is not an object. *)
Module JsObject.

Definition prototype_keys : list string :=
  ["constructor"; "__defineGetter__"; "__defineSetter__"; "hasOwnProperty";
   "__lookupGetter__"; "__lookupSetter__"; "isPrototypeOf";
   "propertyIsEnumerable"; "toString"; "valueOf"; "__proto__";
   "toLocaleString"].

Definition inherited (k : string) : bool :=
  existsb (String.eqb k) prototype_keys.

(** What a property holds: a string, or the member of
    [Object.prototype] of the given name. *)
Inductive value : Type :=
| VString (s : string)
| VPrototype (k : string).

(** [k in o] *)
Definition has_property (k : string) (o : gmap string value) : bool :=
  match o !! k with
  | Some _ => true
  | None => inherited k
  end.

(** [o[k]], [None] for [undefined] *)
Definition get (k : string) (o : gmap string value) : option value :=
  match o !! k with
  | Some v => Some v
  | None => if inherited k then Some (VPrototype k) else None
  end.

(** [o[k] = v] for [o] without setters of its own *)
Definition set (k : string) (v : value) (o : gmap string value) : gmap string value :=
  if String.eqb k "__proto__" then o else <[k := v]> o.

End JsObject.

(** ** [AgentConfiguration]: the sample fields of an instruction text *)
Module Fields.
Import Js JsMatch JsObject.

Definition is_char (a c : ascii) : bool := Ascii.eqb c a.

Definition not_char (a c : ascii) : bool := negb (Ascii.eqb c a).

(** The pattern [/\{([^}]+)\}/]. *)
Definition placeholder_pattern : regex :=
  RSeq (RClass (is_char "{"))
       (RSeq (RPlus (RClass (not_char "}"))) (RClass (is_char "}"))).

(** [value.match(/\{([^}]+)\}/g)?.map((field) => field.slice(1, -1)) || []] *)
Definition extract_names (text : string) : list string :=
  map (slice_inner 1 1) (match_all placeholder_pattern text).

(** [field in prev ? prev[field] : ""] *)
Definition carried_over (field : string) (prev : gmap string value) : value :=
  if has_property field prev
  then match get field prev with
       | Some v => v
       | None => VString ""
       end
  else VString "".

(** The argument of [setSampleFields]: the new record built from the
    extracted names and the previous record. *)
Definition update_fields (fields : list string) (prev : gmap string value)
  : gmap string value :=
  foldl (fun newFields field => set field (carried_over field prev) newFields)
        ∅ fields.

(** [extractFields(value)] applied to the current sample fields. *)
Definition extractFields (text : string) (prev : gmap string value)
  : gmap string value :=
  update_fields (extract_names text) prev.

End Fields.

(** ** [CallPhoneNumber]: the form around the validator *)
Module CallPhoneNumber.
Import Eff PhoneNumber.

(** The hooks of the component, the calls of [onClick] suspended at
    [await props.handleCallPhoneNumber(...)], and the numbers handed to
    it so far. *)
Record state : Type :=
  { isCalling : bool;
    phoneNumber : option string;
    isValidPhoneNumber : bool;
    awaiting : nat;
    submitted : list string }.

Definition init : state :=
  {| isCalling := false; phoneNumber := None; isValidPhoneNumber := false;
     awaiting := 0; submitted := [] |}.

(** [disabled={phoneNumber !== null && !isValidPhoneNumber && !isCalling}] *)
Definition disabled (st : state) : bool :=
  match phoneNumber st with
  | Some _ => true
  | None => false
  end
  && negb (isValidPhoneNumber st) && negb (isCalling st).

(** The [onChange] of the input. *)
Definition onChange (v : string) (st : state) : state :=
  {| isCalling := isCalling st;
     phoneNumber := Some v;
     isValidPhoneNumber := validatePhoneNumber v;
     awaiting := awaiting st;
     submitted := submitted st |}.

(** [onClick] up to its [await]. *)
Definition onClick (st : state) : state :=
  match phoneNumber st with
  | Some p =>
      if truthy (Some p)
      then {| isCalling := true;
              phoneNumber := phoneNumber st;
              isValidPhoneNumber := isValidPhoneNumber st;
              awaiting := S (awaiting st);
              submitted := submitted st ++ [p] |}
      else st
  | None => st
  end.

(** [onClick] after its [await]: [setIsCalling(false)] when the call
    returned, nothing when it threw. *)
Definition onSettled (ok : bool) (st : state) : state :=
  {| isCalling := if ok then false else isCalling st;
     phoneNumber := phoneNumber st;
     isValidPhoneNumber := isValidPhoneNumber st;
     awaiting := pred (awaiting st);
     submitted := submitted st |}.

Inductive event : Type :=
| Change (v : string)
| ClickButton
| CallSettled (ok : bool).

(** One event; a disabled button cannot be clicked. *)
Definition step (st : state) (e : event) : option state :=
  match e with
  | Change v => Some (onChange v st)
  | ClickButton => if disabled st then None else Some (onClick st)
  | CallSettled ok =>
      match awaiting st with
      | O => None
      | S _ => Some (onSettled ok st)
      end
  end.

Fixpoint run (st : state) (es : list event) : option state :=
  match es with
  | [] => Some st
  | e :: es' =>
      match step st e with
      | Some st' => run st' es'
      | None => None
      end
  end.

End CallPhoneNumber.

(** ** [AgentConfiguration] and [CreateNewAgentModal]: which agent is shown *)
Module AgentSelection.
Import AgentConfig.

(** [props.agents.find((agent) => agent.id === props.agentId?.versionId)] *)
Definition activeAgent (st : state) : option Agent :=
  match agentId st with
  | Some (_, versionId) =>
      List.find (fun agent => String.eqb (id agent) versionId) (agents st)
  | None => None
  end.

(** [handleCreateNewAgent], given what [createAgent] answers. *)
Definition handleCreateNewAgent (response : option Agent) (st : state) : state :=
  match response with
  | Some r =>
      {| agents := r :: agents st;
         agentId := Some (base_id r, id r);
         saveLoading := saveLoading st;
         newVersion := newVersion st;
         toasts := toasts st ++ [ToastSuccess "Agent created"] |}
  | None =>
      {| agents := agents st;
         agentId := agentId st;
         saveLoading := saveLoading st;
         newVersion := newVersion st;
         toasts := toasts st ++ [ToastError "Failed to create agent, please try again"] |}
  end.

(** The [onValueChange] of the agent selector. *)
Definition selectAgent (value : string) (st : state) : state :=
  match List.find (fun agent => String.eqb (base_id agent) value) (agents st) with
  | Some agent =>
      {| agents := agents st;
         agentId := Some (base_id agent, id agent);
         saveLoading := saveLoading st;
         newVersion := newVersion st;
         toasts := toasts st |}
  | None => st
  end.

(** The [onValueChange] of the version selector. *)
Definition selectVersion (value : string) (st : state) : state :=
  match agentId st with
  | Some (baseId, _) =>
      match List.find (fun agent => String.eqb (base_id agent) baseId) (agents st) with
      | Some agent =>
          {| agents := agents st;
             agentId := Some (base_id agent, value);
             saveLoading := saveLoading st;
             newVersion := None;
             toasts := toasts st |}
      | None => st
      end
  | None => st
  end.

End AgentSelection.

(** ** The API client

    [Ajax.req] and [Ajax.stream] are given by what they do: a request
    returns a value or throws, a stream yields payloads and then ends
    or throws. *)
Module ApiCalls.
Import Eff.

(** What the wrappers leave behind: the arguments of [console.error]
    and the notifications shown by the callers. *)
Record state : Type :=
  { console : list exn;
    toasts : list AgentConfig.toast }.

Definition console_error (e : exn) (st : state) : state :=
  {| console := console st ++ [e]; toasts := toasts st |}.

Definition toast (t : AgentConfig.toast) (st : state) : state :=
  {| console := console st; toasts := toasts st ++ [t] |}.

Section Request.
Context {A : Type}.

(** [let response = null;
     try { response = await Ajax.req(...) } catch (error) { console.error(error) }
     return response;] *)
Definition nullable_request (req : M (S:=state) A) : M (S:=state) (option A) :=
  try_catch
    (Eff.bind req (fun response => ret (Some response)))
    (fun error => Eff.bind (modify (console_error error)) (fun _ => ret None)).

Definition createSession (req : M (S:=state) A) : M (S:=state) (option A) :=
  nullable_request req.

Definition storeSession (req : M (S:=state) A) : M (S:=state) (option A) :=
  nullable_request req.

Definition outboundCall (req : M (S:=state) A) : M (S:=state) (option A) :=
  nullable_request req.

(** [let response = true;
     try { await Ajax.req(...) } catch (error) { response = false; console.error(error) }
     return response;] *)
Definition hangUp (req : M (S:=state) A) : M (S:=state) bool :=
  try_catch
    (Eff.bind req (fun _ => ret true))
    (fun error => Eff.bind (modify (console_error error)) (fun _ => ret false)).

(** [handleCallHangUp] of [PrimaryPage]. *)
Definition handleCallHangUp (req : M (S:=state) A) : M (S:=state) unit :=
  Eff.bind (hangUp req) (fun response =>
    if response
    then modify (toast (AgentConfig.ToastSuccess "Hanging up call..."))
    else modify (toast (AgentConfig.ToastError "Failed to hang up call, please try again"))).

(** [handleHangUp] of [LiveCallDisplay]. *)
Definition handleHangUp (phoneCallId : option string) (req : M (S:=state) A)
  : M (S:=state) unit :=
  if negb (truthy phoneCallId) then ret tt else handleCallHangUp req.

End Request.

(** An async generator, run to its end: its body yields into the list
    of what it has produced, and the stream it denotes ends the way
    the body does. *)
Definition yield {A} (x : A) : M (S:=list A) unit :=
  modify (fun produced => produced ++ [x]).

Definition generator {A} (body : M (S:=list A) unit) : stream A :=
  match body [] with
  | (inl _, produced) => {| items := produced; ending := EndOfStream |}
  | (inr e, produced) => {| items := produced; ending := StreamThrows e |}
  end.

(** [for await (const payload of Ajax.stream(...)) { yield payload; }] *)
Definition streamSpeaker {A} (ajax_stream : stream A) : stream A :=
  generator (for_await ajax_stream (fun payload => Eff.bind (yield payload) (fun _ => ret Continue))).

End ApiCalls.

(** ** [LiveCallDisplay]: the component, event by event *)
Module LiveCallDisplay.
Import Eff LiveCall.

Section WithSegment.
Context {SpeakerSegment : Type}.

(** The prop, the hooks, and for every call of [runMetadataStream]
    whether its loop is still running. *)
Record state : Type :=
  { phoneCallId : option string;
    open : bool;
    speakerSegments : list SpeakerSegment;
    currentSegment : option SpeakerSegment;
    callEnded : bool;
    consumers : list bool }.

Definition init : state :=
  {| phoneCallId := None; open := false; speakerSegments := [];
     currentSegment := None; callEnded := false; consumers := [] |}.

(** The effect that runs when [props.phoneCallId] changes. *)
Definition on_phoneCallId (v : option string) (st : state) : state :=
  if truthy v
  then {| phoneCallId := v; open := true;
          speakerSegments := speakerSegments st;
          currentSegment := currentSegment st;
          callEnded := callEnded st;
          consumers := consumers st ++ [true] |}
  else {| phoneCallId := v; open := open st;
          speakerSegments := speakerSegments st;
          currentSegment := currentSegment st;
          callEnded := callEnded st;
          consumers := consumers st |}.

(** One turn of the loop of the consumer number [i]. *)
Definition on_payload (i : nat) (p : payload SpeakerSegment) (st : state) : state :=
  if is_call_end p
  then {| phoneCallId := phoneCallId st; open := open st;
          speakerSegments := speakerSegments st;
          currentSegment := currentSegment st;
          callEnded := true;
          consumers := <[i := false]> (consumers st) |}
  else {| phoneCallId := phoneCallId st; open := open st;
          speakerSegments := p_data p;
          currentSegment := currentSegment st;
          callEnded := callEnded st;
          consumers := consumers st |}.

(** The stream of the consumer number [i] ends or throws. *)
Definition on_stream_end (i : nat) (st : state) : state :=
  {| phoneCallId := phoneCallId st; open := open st;
     speakerSegments := speakerSegments st;
     currentSegment := currentSegment st;
     callEnded := callEnded st;
     consumers := <[i := false]> (consumers st) |}.

(** [onOpenChange]; [props.setPhoneCallId(null)] sets the prop. *)
Definition onOpenChange (o : bool) (st : state) : state :=
  if o
  then {| phoneCallId := phoneCallId st; open := true;
          speakerSegments := speakerSegments st;
          currentSegment := currentSegment st;
          callEnded := callEnded st;
          consumers := consumers st |}
  else {| phoneCallId := None; open := false;
          speakerSegments := [];
          currentSegment := None;
          callEnded := callEnded st;
          consumers := consumers st |}.

(** [setCurrentSegment], called by the player. *)
Definition setCurrentSegment (s : option SpeakerSegment) (st : state) : state :=
  {| phoneCallId := phoneCallId st; open := open st;
     speakerSegments := speakerSegments st;
     currentSegment := s;
     callEnded := callEnded st;
     consumers := consumers st |}.

Inductive event : Type :=
| PhoneCallIdProp (v : option string)     (* the parent passes a new id *)
| Payload (i : nat) (p : payload SpeakerSegment)
| StreamEnds (i : nat)
| OpenChange (o : bool)
| CurrentSegment (s : option SpeakerSegment).

Definition option_string_eqb (a b : option string) : bool :=
  match a, b with
  | Some x, Some y => String.eqb x y
  | None, None => true
  | _, _ => false
  end.

(** One event; a consumer that has left its loop reads nothing more,
    and the effect does not run when the prop keeps its value. *)
Definition step (st : state) (e : event) : option state :=
  match e with
  | PhoneCallIdProp v =>
      if option_string_eqb v (phoneCallId st) then None
      else Some (on_phoneCallId v st)
  | Payload i p =>
      match consumers st !! i with
      | Some true => Some (on_payload i p st)
      | _ => None
      end
  | StreamEnds i =>
      match consumers st !! i with
      | Some true => Some (on_stream_end i st)
      | _ => None
      end
  | OpenChange o => Some (onOpenChange o st)
  | CurrentSegment s => Some (setCurrentSegment s st)
  end.

Fixpoint run (st : state) (es : list event) : option state :=
  match es with
  | [] => Some st
  | e :: es' =>
      match step st e with
      | Some st' => run st' es'
      | None => None
      end
  end.

(** The events that take the consumer number [i] out of its loop. *)
Definition stops (i : nat) (e : event) : Prop :=
  match e with
  | Payload j p => j = i /\ is_call_end p = true
  | StreamEnds j => j = i
  | _ => False
  end.

End WithSegment.
Arguments state : clear implicits.
Arguments event : clear implicits.

End LiveCallDisplay.

(** ** [AgentConfiguration]: the editor, event by event *)
Module AgentEditor.
Import AgentConfig AgentSelection.

(** [{ ...agent, name: v }] *)
Definition with_name (v : string) (agent : Agent) : Agent :=
  {| id := id agent;
     base_id := base_id agent;
     name := v;
     system_message := system_message agent;
     active := active agent;
     created_at := created_at agent;
     document_metadata := document_metadata agent |}.

(** [{ ...agent, system_message: v }] *)
Definition with_system_message (v : string) (agent : Agent) : Agent :=
  {| id := id agent;
     base_id := base_id agent;
     name := name agent;
     system_message := v;
     active := active agent;
     created_at := created_at agent;
     document_metadata := document_metadata agent |}.

Definition set_newVersion (v : option Agent) (st : state) : state :=
  {| agents := agents st;
     agentId := agentId st;
     saveLoading := saveLoading st;
     newVersion := v;
     toasts := toasts st |}.

Definition setSaveLoading (b : bool) (st : state) : state :=
  {| agents := agents st;
     agentId := agentId st;
     saveLoading := b;
     newVersion := newVersion st;
     toasts := toasts st |}.

(** The [onChange] of the name input, which is disabled while there is
    no active agent. *)
Definition editName (v : string) (st : state) : option state :=
  match activeAgent st with
  | None => None
  | Some agent =>
      Some (set_newVersion
              (Some (with_name v (match newVersion st with
                                  | Some prev => prev
                                  | None => agent
                                  end))) st)
  end.

(** The [onChange] of the instructions; without a draft it starts one
    from [activeAgent!]. *)
Definition editInstructions (v : string) (st : state) : option state :=
  match newVersion st with
  | Some prev => Some (set_newVersion (Some (with_system_message v prev)) st)
  | None =>
      match activeAgent st with
      | Some agent => Some (set_newVersion (Some (with_system_message v agent)) st)
      | None => None
      end
  end.

(** [handleSaveVersion] after its [await]. *)
Definition saveReturned (response : option Agent) (st : state) : state :=
  match response with
  | Some r =>
      {| agents := r :: map deactivate (agents st);
         agentId := Some (base_id r, id r);
         saveLoading := false;
         newVersion := None;
         toasts := toasts st ++ [ToastSuccess "Version saved"] |}
  | None =>
      {| agents := agents st;
         agentId := agentId st;
         saveLoading := false;
         newVersion := newVersion st;
         toasts := toasts st ++ [ToastError "Failed to save version"] |}
  end.

(** The versions the version selector offers:
    [props.agents.filter((agent) => agent.base_id === props.agentId?.baseId)]. *)
Definition offered_versions (st : state) : list Agent :=
  match agentId st with
  | Some (baseId, _) =>
      List.filter (fun agent => String.eqb (base_id agent) baseId) (agents st)
  | None => []
  end.

(** The component with the requests it awaits. *)
Record session : Type :=
  { view : state;
    saving : nat;      (* calls of [handleSaveVersion] at their [await] *)
    creating : nat }.  (* calls of [handleCreateNewAgent] at their [await] *)

Inductive event : Type :=
| CreateClick
| CreateReturned (response : option Agent)
| SaveClick
| SaveReturned (response : option Agent)
| SelectAgent (value : string)
| SelectVersion (value : string)
| EditName (v : string)
| EditInstructions (v : string).

(** One event.  The save button is shown only while there is a draft,
    and the version selector calls back only with the id of a version
    it offers. *)
Definition step (s : session) (e : event) : option session :=
  match e with
  | CreateClick =>
      Some {| view := view s; saving := saving s; creating := S (creating s) |}
  | CreateReturned r =>
      match creating s with
      | O => None
      | S n => Some {| view := handleCreateNewAgent r (view s);
                       saving := saving s; creating := n |}
      end
  | SaveClick =>
      match newVersion (view s) with
      | Some _ => Some {| view := setSaveLoading true (view s);
                          saving := S (saving s); creating := creating s |}
      | None => None
      end
  | SaveReturned r =>
      match saving s with
      | O => None
      | S n => Some {| view := saveReturned r (view s);
                       saving := n; creating := creating s |}
      end
  | SelectAgent value =>
      Some {| view := selectAgent value (view s);
              saving := saving s; creating := creating s |}
  | SelectVersion value =>
      if existsb (fun agent => String.eqb (id agent) value) (offered_versions (view s))
      then Some {| view := selectVersion value (view s);
                   saving := saving s; creating := creating s |}
      else None
  | EditName v =>
      match editName v (view s) with
      | Some st => Some {| view := st; saving := saving s; creating := creating s |}
      | None => None
      end
  | EditInstructions v =>
      match editInstructions v (view s) with
      | Some st => Some {| view := st; saving := saving s; creating := creating s |}
      | None => None
      end
  end.

Fixpoint run (s : session) (es : list event) : option session :=
  match es with
  | [] => Some s
  | e :: es' =>
      match step s e with
      | Some s' => run s' es'
      | None => None
      end
  end.

(** An agent of the collection has the id [i]. *)
Definition listed (i : string) (l : list Agent) : Prop :=
  exists agent, agent ∈ l /\ id agent = i.


End AgentEditor.

(** ** Concrete runs of the other components *)
Module MoreScenarios.
Import AudioConnection Scenarios.

(** The user starts a second session within the grace delay of a
    hang-up; the deferred teardown of the first session fires and
    awaits [storeSession]. *)
Definition teardown_awaiting : list label :=
  connect
    ++ [ChannelMessage 0 (Some hang_up_event);
        Advance 3000;
        Click; CredentialReturned 1 (Some token2); Settled 1 Fulfilled;
        Advance 7000;
        TimerFire 0].

(** The credential has arrived and the microphone is awaited. *)
Definition awaiting_microphone : list label :=
  [Click; CredentialReturned 0 (Some token1)].

(** The user types a number and calls it. *)
Definition typing : list CallPhoneNumber.event :=
  [CallPhoneNumber.Change "+1555"; CallPhoneNumber.Change "+15551234567"].

Definition form_after (es : list CallPhoneNumber.event) : CallPhoneNumber.state :=
  match CallPhoneNumber.run CallPhoneNumber.init es with
  | Some st => st
  | None => CallPhoneNumber.init
  end.

(** The sample fields before an edit of the instructions. *)
Definition sample_fields : gmap string JsObject.value :=
  <["name" := JsObject.VString "Joe Smith"]>
    (<["city" := JsObject.VString "New York"]> ∅).

(** A live call whose metadata stream is being read. *)
Definition live_events : list (LiveCallDisplay.event nat) :=
  [LiveCallDisplay.PhoneCallIdProp (Some "call_7");
   LiveCallDisplay.Payload 0 {| LiveCall.p_type := "speaker_segments"; LiveCall.p_data := [1] |}].

Definition live_after (es : list (LiveCallDisplay.event nat)) : LiveCallDisplay.state nat :=
  match LiveCallDisplay.run LiveCallDisplay.init es with
  | Some st => st
  | None => LiveCallDisplay.init
  end.

Definition call_end_payload : LiveCall.payload nat :=
  {| LiveCall.p_type := "call_end"; LiveCall.p_data := [] |}.




End MoreScenarios.

Section RegexFacts.
Import Js.

Lemma matches_none s : matches RNone s = false.
Proof. induction s as [|c s IH]; simpl; auto. Qed.

Lemma matches_alt r1 r2 s :
  matches (RAlt r1 r2) s = matches r1 s || matches r2 s.
Proof.
  revert r1 r2. induction s as [|c s IH]; intros r1 r2; simpl; auto.
Qed.

Lemma matches_seq_none r s : matches (RSeq RNone r) s = false.
Proof. induction s as [|c s IH]; simpl; auto. Qed.

Lemma matches_seq_empty r s : matches (RSeq REmpty r) s = matches r s.
Proof.
  destruct s as [|c s]; simpl; auto.
  rewrite matches_alt, matches_seq_none. reflexivity.
Qed.

Lemma matches_star_class p s :
  matches (RStar (RClass p)) s = all_chars p s.
Proof.
  induction s as [|c s IH]; simpl; auto.
  destruct (p c); simpl.
  - rewrite matches_seq_empty. exact IH.
  - apply matches_seq_none.
Qed.

Lemma matches_plus_class p s :
  matches (RPlus (RClass p)) s =
  match s with
  | EmptyString => false
  | String c s' => p c && all_chars p s'
  end.
Proof.
  destruct s as [|c s]; simpl; auto.
  destruct (p c); simpl.
  - rewrite matches_seq_empty. apply matches_star_class.
  - apply matches_seq_none.
Qed.

End RegexFacts.

Section PhoneNumberFacts.
Import Js PhoneNumber.

(** C5. The validator accepts exactly the strings made of ['+']
    followed by one or more digits and nothing else; in particular it
    accepts "+15551234567" and rejects "15551234567", "+1555-123-4567"
    and the empty string. *)
Theorem validatePhoneNumber_spec :
  (forall s : string,
      validatePhoneNumber s = true <->
      exists ds : string,
        s = String "+"%char ds /\ ds <> EmptyString /\ all_chars is_digit ds = true)
  /\ validatePhoneNumber "+15551234567" = true
  /\ validatePhoneNumber "15551234567" = false
  /\ validatePhoneNumber "+1555-123-4567" = false
  /\ validatePhoneNumber "" = false.
Proof.
  split; [|repeat split; reflexivity].
  intros s. unfold validatePhoneNumber, match_anchored, digits_pattern. split.
  - intros H. apply andb_prop in H as [Hp Hm].
    destruct s as [|c s]; [discriminate|].
    cbn [startsWith] in Hp.
    destruct (Ascii.eqb_spec "+"%char c) as [<-|]; [|discriminate].
    cbn [slice] in Hm. exists s. rewrite matches_plus_class in Hm.
    destruct s as [|d s]; [discriminate|].
    split; [reflexivity|]. split; [discriminate|]. exact Hm.
  - intros (ds & -> & Hne & Hd). cbn [startsWith slice andb].
    rewrite Ascii.eqb_refl. cbn [andb].
    rewrite matches_plus_class. destruct ds as [|d ds]; [congruence|]. exact Hd.
Qed.

End PhoneNumberFacts.

Section AgentConfigFacts.
Import AgentConfig.

Lemma active_of_deactivated b l : active_of b (map deactivate l) = [].
Proof.
  unfold active_of. induction l as [|a l IH]; simpl; [reflexivity|].
  rewrite andb_false_r. exact IH.
Qed.

(** What a successful save leaves active: of the base of the
    returned version, that version when the backend marked it active;
    of every other base, nothing. *)
Lemma handleSaveVersion_active r nv st b :
  newVersion st = Some nv ->
  active_of b (agents (handleSaveVersion (Some r) st)) =
  if String.eqb (base_id r) b && active r then [r] else [].
Proof.
  intros Hnv. unfold handleSaveVersion. rewrite Hnv. simpl.
  unfold active_of at 1. simpl.
  fold (active_of b (map deactivate (agents st))).
  rewrite active_of_deactivated. reflexivity.
Qed.

(** C1. Saving a new version of one agent, in a collection that holds
    a second agent with its one active version: the new version is
    the only active one of its base, and the second agent is left
    with no active version (it had one), so that the agent selector
    no longer offers it. *)
Theorem handleSaveVersion_deactivates_other_bases :
  let st' := handleSaveVersion (Some Scenarios.nurse_v2) Scenarios.editing in
  agents st' =
    [Scenarios.nurse_v2; deactivate Scenarios.nurse_v1; deactivate Scenarios.scheduler_v1]
  /\ active_of "nurse" (agents st') = [Scenarios.nurse_v2]
  /\ active_of "scheduler" (agents Scenarios.editing) = [Scenarios.scheduler_v1]
  /\ active_of "scheduler" (agents st') = []
  /\ selectable_bases (agents Scenarios.editing) = ["nurse"; "scheduler"]
  /\ selectable_bases (agents st') = ["nurse"].
Proof. repeat split; reflexivity. Qed.

End AgentConfigFacts.

Section LiveCallFacts.
Import Eff LiveCall.
Context {SpeakerSegment : Type}.

Lemma last_data_cons (init : list SpeakerSegment) (q : payload SpeakerSegment) ps :
  last_data init (q :: ps) = last_data (p_data q) ps.
Proof.
  unfold last_data. destruct ps as [|x ps]; [reflexivity|].
  change (last (q :: x :: ps)) with (last (x :: ps)).
  destruct (last (x :: ps)) eqn:E; [reflexivity|].
  apply last_None in E. discriminate.
Qed.

(** The loop over payloads none of which is a call end: each one
    overwrites the segment list. *)
Lemma for_await_segments (pre rest : list (payload SpeakerSegment)) e (st : state SpeakerSegment) :
  Forall (fun q => is_call_end q = false) pre ->
  for_await_items (pre ++ rest) e on_payload st =
  for_await_items rest e on_payload
    {| speakerSegments := last_data (speakerSegments st) pre;
       callEnded := callEnded st;
       console := console st ++ map ConsoleLog pre |}.
Proof.
  intros Hpre. revert st.
  induction Hpre as [|q pre Hq Hpre IH]; intros st.
  - simpl. rewrite app_nil_r. destruct st; reflexivity.
  - rewrite last_data_cons. cbn [app for_await_items].
    unfold bind at 1, on_payload at 1. rewrite Hq.
    unfold bind, modify, ret. cbn.
    rewrite IH. cbn. rewrite <- app_assoc. reflexivity.
Qed.

(** C10. With a call id, the consumer overwrites the displayed
    segment list with the data of every payload that is not a call
    end (the last one wins), and at a call end it sets the ended flag,
    reads no further payload and leaves the list as it is.  It never
    throws. *)
Theorem runMetadataStream_spec (phoneCallId : option string)
        (pre post : list (payload SpeakerSegment)) (p : payload SpeakerSegment) (e : stream_end) (st : state SpeakerSegment) :
  truthy phoneCallId = true ->
  Forall (fun q => is_call_end q = false) pre ->
  (is_call_end p = true ->
   runMetadataStream phoneCallId {| items := pre ++ p :: post; ending := e |} st =
   (inl tt,
    {| speakerSegments := last_data (speakerSegments st) pre;
       callEnded := true;
       console := console st ++ map ConsoleLog pre ++ [ConsoleLog p] |}))
  /\
  runMetadataStream phoneCallId {| items := pre; ending := e |} st =
  (inl tt,
   {| speakerSegments := last_data (speakerSegments st) pre;
      callEnded := callEnded st;
      console := console st ++ map ConsoleLog pre ++
                 match e with
                 | EndOfStream => []
                 | StreamThrows err => [ConsoleError err]
                 end |}).
Proof.
  intros Hid Hpre. unfold runMetadataStream. rewrite Hid. cbn [negb].
  unfold try_catch, for_await. cbn [items ending]. split.
  - intros Hp. rewrite (for_await_segments pre (p :: post) e st Hpre).
    cbn [for_await_items]. unfold bind at 1, on_payload at 1. rewrite Hp.
    unfold bind, modify, ret, setCallEnded, console_write. cbn.
    rewrite <- app_assoc. reflexivity.
  - rewrite <- (app_nil_r pre) at 1.
    rewrite (for_await_segments pre [] e st Hpre).
    cbn [for_await_items]. destruct e as [|err]; cbn.
    + rewrite app_nil_r. reflexivity.
    + unfold modify, console_write. cbn. rewrite <- app_assoc. reflexivity.
Qed.

End LiveCallFacts.

Section PhoneFacts.
Import Eff Phone.

Lemma for_await_speaker (xs : list SpeakerEvent) e (st : state) :
  for_await_items xs e on_payload st =
  (match e with
   | EndOfStream => inl tt
   | StreamThrows err => inr err
   end,
   {| phoneCallId := phoneCallId st;
      isPlaying := isPlaying st;
      speakerIntervals := speakerIntervals st ++ xs;
      audio := audio st;
      toasts := toasts st;
      console := console st ++ buffer_logs (speakerIntervals st) xs |}).
Proof.
  revert st. induction xs as [|x xs IH]; intros st.
  - cbn. rewrite !app_nil_r. destruct st, e; reflexivity.
  - cbn [for_await_items]. unfold bind at 1, on_payload at 1.
    unfold bind, modify, ret. cbn.
    rewrite IH. cbn. rewrite <- !app_assoc. reflexivity.
Qed.

(** C8. Once a call is placed, every payload of the speaker stream is
    pushed on the buffer until the stream ends or throws; in both
    cases the controller is then idle again (not playing, no call id,
    empty buffer), and the task ends normally: the error of the
    stream is logged, not thrown. *)
Theorem handleCallPhoneNumber_resets (phone_call_id : string)
        (s : stream SpeakerEvent) (st : state) :
  exists st',
    handleCallPhoneNumber (Some phone_call_id) s st = (inl tt, st')
    /\ isPlaying st' = false
    /\ phoneCallId st' = None
    /\ speakerIntervals st' = []
    /\ console st' =
         console st ++ buffer_logs (speakerIntervals st) (items s) ++
         match ending s with
         | EndOfStream => []
         | StreamThrows err => [ConsoleError err]
         end.
Proof.
  unfold handleCallPhoneNumber, speaker_task, try_catch, for_await.
  unfold bind at 1 2 3. unfold modify at 1 2 3. cbn beta iota.
  unfold bind at 1. rewrite for_await_speaker.
  destruct (ending s) as [|err]; cbn; eexists; repeat split; cbn.
  - rewrite app_nil_r. reflexivity.
  - rewrite <- app_assoc. reflexivity.
Qed.

End PhoneFacts.

Section AudioConnectionFacts.
Import Eff AudioConnection.

(** Reduction of the handlers on a state given by its fields. *)
Ltac ctl_red_in H :=
  cbv beta iota zeta delta
    [step on_message on_open on_credential on_fulfilled on_rejected
     startSession stopSession teardown teardown_resume clear_session
     setDataChannel_new close_channel close_connection
     setIsSessionActive setSettingUpSession set_dataChannel
     set_sessionData set_sessionId set_peerConnection set_userInfo
     set_listeners set_starts set_timers set_storing set_now set_fresh emit
     isSessionActive settingUpSession dataChannel sessionData sessionId
     peerConnection userInfo listeners starts timers storing now fresh effects
     due env cl_dataChannel cl_userInfo truthy] in H.

Ltac ctl_red :=
  cbv beta iota zeta delta
    [step on_message on_open on_credential on_fulfilled on_rejected
     startSession stopSession teardown teardown_resume clear_session
     setDataChannel_new close_channel close_connection
     setIsSessionActive setSettingUpSession set_dataChannel
     set_sessionData set_sessionId set_peerConnection set_userInfo
     set_listeners set_starts set_timers set_storing set_now set_fresh emit
     isSessionActive settingUpSession dataChannel sessionData sessionId
     peerConnection userInfo listeners starts timers storing now fresh effects
     due env cl_dataChannel cl_userInfo truthy] in *.

Ltac destruct_state st :=
  let dc := fresh "dc" in
  let sid := fresh "sid" in
  let pc := fresh "pc" in
  destruct st as [? ? dc ? sid pc ? ? ? ? ? ? ? ?];
  destruct dc, sid, pc.

Ltac destruct_closures :=
  repeat match goal with
         | t : timer |- _ => destruct t
         | cl : closure |- _ => let o := fresh "o" in destruct cl as [o ?]; destruct o
         end.

Ltac destruct_args :=
  repeat match goal with
         | r : option token |- _ => destruct r
         | d : option json |- _ => destruct d
         | r : settled |- _ => destruct r
         | p : phase |- _ => destruct p
         end.

(** Case analysis on an enabled step: the state is split into its
    fields, the handler of the event is run on it, and the resulting
    state is substituted everywhere. *)
Ltac step_cases H :=
  match type of H with step ?st _ = _ => destruct_state st end;
  destruct_args;
  cbv beta iota delta
    [step isSessionActive settingUpSession dataChannel sessionData sessionId
     peerConnection userInfo listeners starts timers storing now fresh effects]
    in H;
  repeat case_match; try discriminate H;
  destruct_args; destruct_closures;
  ctl_red_in H;
  repeat case_match; try discriminate H;
  simplify_eq;
  ctl_red.

Lemma run_app st tr1 tr2 :
  run st (tr1 ++ tr2) =
  match run st tr1 with
  | Some st1 => run st1 tr2
  | None => None
  end.
Proof.
  revert st. induction tr1 as [|l tr1 IH]; intros st; simpl; [reflexivity|].
  destruct (step st l); [apply IH|reflexivity].
Qed.

(** Induction on a run from its last step. *)
Lemma run_ind_r (P : list label -> state -> Prop) st0 :
  P [] st0 ->
  (forall tr st l st', run st0 tr = Some st -> P tr st ->
                       step st l = Some st' -> P (tr ++ [l]) st') ->
  forall tr st, run st0 tr = Some st -> P tr st.
Proof.
  intros Hnil Hstep tr. induction tr as [|l tr IH] using rev_ind; intros st Hrun.
  - simpl in Hrun. simplify_eq. exact Hnil.
  - rewrite run_app in Hrun. destruct (run st0 tr) as [st1|] eqn:E; [|discriminate].
    simpl in Hrun. destruct (step st1 l) as [st2|] eqn:E2; [|discriminate].
    simplify_eq. eapply Hstep; eauto.
Qed.

(** Only the open listener raises the active flag. *)
Lemma step_raises_active st l st' :
  step st l = Some st' ->
  isSessionActive st = false -> isSessionActive st' = true ->
  exists c, l = ChannelOpen c.
Proof.
  intros H Hf Ht. destruct l; try (eexists; reflexivity);
    step_cases H; congruence.
Qed.


Ltac simpl_stores :=
  unfold stores, toasts, arrivals in *; ctl_red;
  rewrite ?omap_app in *; cbn [omap store_call toast_of arrival app] in *;
  rewrite ?app_nil_r in *.

(** A step other than a teardown makes no [storeSession] call, leaves
    the suspended teardowns alone, appends to the log the event it
    carries, if any, and changes the session identifier only when it is
    the receipt of a credential. *)
Lemma step_frame st l st' :
  step st l = Some st' -> is_teardown l = false ->
  stores st' = stores st
  /\ storing st' = storing st
  /\ sessionData st' = sessionData st ++ arrivals [l]
  /\ (is_new_session l = false -> sessionId st' = sessionId st).
Proof.
  intros H Hl. destruct l; try discriminate Hl;
    step_cases H; simpl_stores; cbn [is_new_session]; repeat split;
    congruence.
Qed.

Lemma step_now st l st' : step st l = Some st' -> (now st <= now st')%N.
Proof.
  intros H. destruct l; step_cases H; lia.
Qed.

Lemma run_now st tr st' : run st tr = Some st' -> (now st <= now st')%N.
Proof.
  revert st. induction tr as [|l tr IH]; intros st H; simpl in H.
  - simplify_eq. lia.
  - destruct (step st l) as [st1|] eqn:E; [|discriminate].
    apply step_now in E. apply IH in H. lia.
Qed.

Lemma elem_of_delete_other {A} (l : list A) k x y :
  l !! k = Some y -> x ∈ l -> x <> y -> x ∈ delete k l.
Proof.
  revert k. induction l as [|z l IH]; intros k Hk Hx Hne; [inversion Hx|].
  destruct k as [|k]; cbn in *.
  - simplify_eq. apply elem_of_cons in Hx as [->|Hx]; [congruence|exact Hx].
  - apply elem_of_cons in Hx as [->|Hx]; [left|right; eauto].
Qed.

(** The state after a teardown, by cases on the state before it. *)
Ltac teardown_cases_of cl st :=
  let st' := fresh "st'" in
  let H := fresh "Hst'" in
  remember (teardown cl st) as st' eqn:H;
  destruct_state st; destruct_closures; ctl_red_in H;
  repeat case_match; subst st'.

Lemma teardown_now cl st : now (teardown cl st) = now st.
Proof. teardown_cases_of cl st; reflexivity. Qed.

Lemma teardown_timers cl st : timers (teardown cl st) = timers st.
Proof. teardown_cases_of cl st; reflexivity. Qed.

Lemma timer_fire_inv st k st' :
  step st (TimerFire k) = Some st' ->
  exists t, timers st !! k = Some t /\ (due t <= now st)%N
            /\ st' = teardown (env t) (set_timers (delete k (timers st)) st).
Proof.
  unfold step. intros H. destruct (timers st !! k) as [t|]; [|discriminate].
  destruct (due t <=? now st)%N eqn:E; [|discriminate].
  apply N.leb_le in E. simplify_eq. eauto.
Qed.

(** A timer that is not yet due after a step was not fired by it. *)
Lemma step_timer_pending st l st' t :
  step st l = Some st' -> t ∈ timers st -> (now st' < due t)%N -> t ∈ timers st'.
Proof.
  intros H Ht Hdue.
  destruct l;
    try (step_cases H;
         first [assumption | apply elem_of_app; left; assumption]).
  apply timer_fire_inv in H as (t0 & Hk & Hd & ->).
  rewrite teardown_now in Hdue. rewrite teardown_timers.
  change (timers (set_timers (delete k (timers st)) st)) with (delete k (timers st)).
  change (now (set_timers (delete k (timers st)) st)) with (now st) in Hdue.
  eapply elem_of_delete_other; eauto. intros ->. lia.
Qed.

Lemma run_timer_pending st tr st' t :
  run st tr = Some st' -> t ∈ timers st -> (now st' < due t)%N -> t ∈ timers st'.
Proof.
  revert st. induction tr as [|l tr IH]; intros st H Ht Hdue; simpl in H.
  - simplify_eq. exact Ht.
  - destruct (step st l) as [st1|] eqn:E; [|discriminate].
    eapply IH; eauto. eapply step_timer_pending; eauto.
    apply run_now in H. lia.
Qed.

Lemma arrivals_cons l tr : arrivals (l :: tr) = arrivals [l] ++ arrivals tr.
Proof. unfold arrivals. change (l :: tr) with ([l] ++ tr). apply omap_app. Qed.

(** Over steps none of which is a teardown, the log grows by the
    events that arrive, in the order of arrival. *)
Lemma run_log st tr st' :
  run st tr = Some st' ->
  Forall (fun l => is_teardown l = false) tr ->
  sessionData st' = sessionData st ++ arrivals tr
  /\ stores st' = stores st /\ storing st' = storing st.
Proof.
  intros H Hall. revert st H.
  induction Hall as [|l tr Hl Hall IH]; intros st H; simpl in H.
  - simplify_eq. unfold arrivals. cbn. rewrite app_nil_r. auto.
  - destruct (step st l) as [st1|] eqn:E; [|discriminate].
    destruct (step_frame _ _ _ E Hl) as (Hs & Hg & Hd & _).
    destruct (IH _ H) as (Hd' & Hs' & Hg').
    rewrite Hd', Hd, Hs', Hs, Hg', Hg. repeat split.
    rewrite <- app_assoc. f_equal. symmetry. apply arrivals_cons.
Qed.

Lemma guard_true (s : string) (d : list json) :
  negb (String.eqb s "") && (0 <? length d) = true -> s <> "" /\ d <> [].
Proof.
  intros H. apply andb_prop in H as [Hs Hd]. split.
  - apply negb_true_iff, String.eqb_neq in Hs. exact Hs.
  - destruct d; [discriminate|discriminate].
Qed.

Lemma guard_false (s : string) (d : list json) :
  negb (String.eqb s "") && (0 <? length d) = false -> s = "" \/ d = [].
Proof.
  intros H. apply andb_false_iff in H as [Hs|Hd].
  - left. apply negb_false_iff, String.eqb_eq in Hs. exact Hs.
  - right. destruct d; [reflexivity|discriminate].
Qed.

(** The two ways a teardown goes: it clears the session at once and
    calls nothing, or it calls [storeSession] and waits. *)
Lemma teardown_cases cl st :
  ((sessionId st = None \/ sessionId st = Some "" \/ sessionData st = [])
   /\ stores (teardown cl st) = stores st
   /\ storing (teardown cl st) = storing st
   /\ sessionId (teardown cl st) = None
   /\ sessionData (teardown cl st) = [])
  \/ (exists sid,
        sessionId st = Some sid /\ sid <> "" /\ sessionData st <> []
        /\ stores (teardown cl st) = stores st ++ [(sid, sessionData st, cl_userInfo cl)]
        /\ storing (teardown cl st) = S (storing st)
        /\ sessionId (teardown cl st) = Some sid
        /\ sessionData (teardown cl st) = sessionData st).
Proof.
  teardown_cases_of cl st; simpl_stores;
    match goal with
    | H : _ && _ = true |- _ =>
        apply guard_true in H as [? ?]; right; eexists; repeat split; eauto
    | H : _ && _ = false |- _ =>
        apply guard_false in H as [->| ->]; left; repeat split; auto
    | _ => left; repeat split; auto
    end.
Qed.

(** C7. In every state reached from the initial one the session is
    marked active only if a data channel has reported "open" before;
    and a step that raises the flag is the open event of a channel: no
    step of [startSession] (the click, the receipt of the credential,
    the settling of any of its awaits) does. *)
Theorem active_only_after_open u tr st l st' :
  run (init u) tr = Some st ->
  step st l = Some st' ->
  (isSessionActive st = true -> exists c, ChannelOpen c ∈ tr)
  /\ (isSessionActive st = false -> isSessionActive st' = true ->
      exists c, l = ChannelOpen c).
Proof.
  intros Hrun Hstep. split.
  - clear Hstep l st'. revert tr st Hrun.
    apply (run_ind_r (fun tr st => isSessionActive st = true -> exists c, ChannelOpen c ∈ tr)).
    + cbn. discriminate.
    + intros tr st l st' _ IH Hstep Hact.
      destruct (isSessionActive st) eqn:E.
      * destruct (IH eq_refl) as [c Hc]. exists c.
        apply elem_of_app. left. exact Hc.
      * destruct (step_raises_active _ _ _ Hstep E Hact) as [c ->].
        exists c. apply elem_of_app. right. constructor.
  - intros Hf Ht. eapply step_raises_active; eauto.
Qed.

(** C2, as the code has it. When a deferred teardown runs it calls
    [storeSession] exactly once, with the session identifier, the
    accumulated events and the user info of its closure, if the session
    identifier is set (neither [null] nor empty) and the event log is
    not empty; otherwise it makes no call. *)
Theorem teardown_persists_iff st k t st' :
  timers st !! k = Some t ->
  step st (TimerFire k) = Some st' ->
  (exists sid,
      sessionId st = Some sid /\ sid <> "" /\ sessionData st <> []
      /\ stores st' = stores st ++ [(sid, sessionData st, cl_userInfo (env t))])
  \/ ((sessionId st = None \/ sessionId st = Some "" \/ sessionData st = [])
      /\ stores st' = stores st).
Proof.
  intros Ht H. apply timer_fire_inv in H as (t' & Ht' & _ & ->).
  rewrite Ht in Ht'. simplify_eq.
  destruct (teardown_cases (env t') (set_timers (delete k (timers st)) st))
    as [(Hc & Hs & _)|(sid & Hid & Hne & Hd & Hs & _)].
  - right. split; [exact Hc|exact Hs].
  - left. exists sid. repeat split; assumption.
Qed.


(** C4. A message whose event has type
    "response.function_call_arguments.done" and name "hang_up" is
    appended to the log and calls [stopSession], the function the
    button calls for a manual stop, with a delay of 10000 ms: the
    session is marked inactive and the teardown is scheduled 10000 ms
    later.  Until then that teardown is pending and cannot run, and
    the events that arrive are appended to the log (as long as no
    earlier teardown runs in between); at its time it runs the
    teardown. *)
Theorem hang_up_stops_after_grace st c cl event tr st' :
  isSessionActive st = true ->
  listener_of c (listeners st) = Some cl ->
  get_property "type" event = inl (Some (JString "response.function_call_arguments.done")) ->
  get_property "name" event = inl (Some (JString "hang_up")) ->
  let st1 := stopSession 10000 cl (set_sessionData (sessionData st ++ [event]) st) in
  let t := {| due := (now st + 10000)%N; env := cl |} in
  run st1 tr = Some st' ->
  (now st' < now st + 10000)%N ->
  step st (ChannelMessage c (Some event)) = Some st1
  /\ step st Click =
     Some (stopSession 0 {| cl_dataChannel := dataChannel st; cl_userInfo := userInfo st |} st)
  /\ isSessionActive st1 = false
  /\ timers st1 = timers st ++ [t]
  /\ t ∈ timers st'
  /\ (forall k, timers st' !! k = Some t -> step st' (TimerFire k) = None)
  /\ (Forall (fun l => is_teardown l = false) tr ->
      sessionData st' = sessionData st ++ event :: arrivals tr)
  /\ (forall k, timers st' !! k = Some t ->
      let due_state := set_now (now st + 10000)%N st' in
      step due_state (TimerFire k) =
      Some (teardown cl (set_timers (delete k (timers st')) due_state))).
Proof.
  intros Hact Hl Hty Hnm st1 t Hrun Hnow.
  assert (Hh : is_hang_up event = inl true).
  { unfold is_hang_up. rewrite Hty, Hnm. reflexivity. }
  assert (Ht1 : timers st1 = timers st ++ [t]) by reflexivity.
  split_and!.
  - unfold step. rewrite Hl. unfold on_message. rewrite Hh. reflexivity.
  - unfold step. rewrite Hact. reflexivity.
  - reflexivity.
  - exact Ht1.
  - eapply run_timer_pending; eauto.
    rewrite Ht1. apply elem_of_app. right. constructor.
  - intros k Hk. unfold step. rewrite Hk.
    change (due t) with (now st + 10000)%N.
    destruct (now st + 10000 <=? now st')%N eqn:E; [|reflexivity].
    apply N.leb_le in E. lia.
  - intros Hall. destruct (run_log _ _ _ Hrun Hall) as (Hlog & _).
    rewrite Hlog. change (sessionData st1) with (sessionData st ++ [event]).
    rewrite <- app_assoc. reflexivity.
  - intros k Hk due_state. unfold step.
    change (timers due_state) with (timers st'). rewrite Hk.
    change (due t) with (now st + 10000)%N.
    change (now due_state) with (now st + 10000)%N.
    rewrite N.leb_refl. reflexivity.
Qed.

(** One session whose teardowns do not overlap is persisted at most
    once. *)
Lemma serial_run_stores n0 st tr st' :
  run st tr = Some st' ->
  Forall (fun l => is_new_session l = false) tr ->
  serial st tr = true ->
  (length (stores st) = n0 /\ storing st = 0)
  \/ (length (stores st) = S n0
      /\ (storing st = 1 \/ (storing st = 0 /\ sessionId st = None))) ->
  (length (stores st') = n0 /\ storing st' = 0)
  \/ (length (stores st') = S n0
      /\ (storing st' = 1 \/ (storing st' = 0 /\ sessionId st' = None))).
Proof.
  intros Hrun Hall. revert st Hrun.
  induction Hall as [|l tr Hl Hall IH]; intros st Hrun Hser Hinv; simpl in Hrun.
  - simplify_eq. exact Hinv.
  - destruct (step st l) as [st1|] eqn:E; [|discriminate].
    cbn [serial] in Hser. rewrite E in Hser.
    apply andb_prop in Hser as [Hfire Hser].
    apply (IH st1 Hrun Hser). clear IH Hrun Hser Hall tr st'.
    destruct (is_teardown l) eqn:Htd.
    + destruct l; try discriminate Htd.
      * (* a timer fires: no teardown is waiting *)
        apply Nat.eqb_eq in Hfire.
        apply timer_fire_inv in E as (t & _ & _ & ->).
        destruct (teardown_cases (env t) (set_timers (delete k (timers st)) st))
          as [(_ & Hs & Hg & Hid & _)|(sid & Hsid & _ & _ & Hs & Hg & _)];
          rewrite Hs, Hg; change (stores (set_timers (delete k (timers st)) st))
            with (stores st); change (storing (set_timers (delete k (timers st)) st))
            with (storing st);
          change (sessionId (set_timers (delete k (timers st)) st))
            with (sessionId st) in *.
        -- destruct Hinv as [[Hn Hz]|[Hn [Ho|[Hz Hnone]]]].
           ++ left. auto.
           ++ lia.
           ++ right. auto.
        -- destruct Hinv as [[Hn Hz]|[Hn [Ho|[Hz Hnone]]]].
           ++ right. rewrite length_app. cbn. split; [lia|]. left. lia.
           ++ lia.
           ++ congruence.
      * (* [storeSession] returns *)
        unfold step in E. destruct (storing st) as [|n] eqn:Eg; [discriminate|].
        simplify_eq.
        assert (Hs : stores (teardown_resume st) = stores st) by reflexivity.
        assert (Hid : sessionId (teardown_resume st) = None) by reflexivity.
        assert (Hg : storing (teardown_resume st) = n).
        { change (storing (teardown_resume st)) with (pred (storing st)).
          rewrite Eg. reflexivity. }
        rewrite Hs, Hg, Hid.
        destruct Hinv as [[Hn Hz]|[Hn [Ho|[Hz Hnone]]]]; try discriminate.
        right. split; [exact Hn|]. right. split; [lia|reflexivity].
    + destruct (step_frame _ _ _ E Htd) as (Hs & Hg & _ & Hid).
      rewrite Hs, Hg, (Hid Hl). exact Hinv.
Qed.

(** C9, as the code has it. Within one session (no new credential is
    received) and as long as no deferred teardown fires while an
    earlier one is still waiting for its [storeSession] call to return,
    [storeSession] is called at most once, however many stops are
    issued.  A teardown calls it only when the session identifier is
    set; a teardown that makes no call clears the identifier and the
    log at once, one that makes the call clears them when it
    returns. *)
Theorem store_at_most_once st tr st' :
  storing st = 0 ->
  run st tr = Some st' ->
  Forall (fun l => is_new_session l = false) tr ->
  serial st tr = true ->
  length (stores st') <= S (length (stores st))
  /\ (forall k st2, step st' (TimerFire k) = Some st2 ->
        (stores st2 <> stores st' -> sessionId st' <> None)
        /\ (stores st2 = stores st' -> sessionId st2 = None /\ sessionData st2 = []))
  /\ (forall st2, step st' StoreReturned = Some st2 ->
        sessionId st2 = None /\ sessionData st2 = []).
Proof.
  intros Hz Hrun Hall Hser. split_and!.
  - destruct (serial_run_stores (length (stores st)) _ _ _ Hrun Hall Hser)
      as [[Hn _]|[Hn _]]; [left; auto| |]; lia.
  - intros k st2 H. split.
    + intros Hneq Hnone.
      apply timer_fire_inv in H as (t & _ & _ & ->).
      destruct (teardown_cases (env t) (set_timers (delete k (timers st')) st'))
        as [(_ & Hs & _)|(sid & Hsid & _)].
      * apply Hneq. exact Hs.
      * change (sessionId (set_timers (delete k (timers st')) st'))
          with (sessionId st') in Hsid. congruence.
    + intros H0. apply timer_fire_inv in H as (t & _ & _ & ->).
      destruct (teardown_cases (env t) (set_timers (delete k (timers st')) st'))
        as [(_ & _ & _ & Hid & Hd)|(sid & _ & _ & _ & Hs & _)]; [auto|].
      rewrite Hs in H0.
      change (stores (set_timers (delete k (timers st')) st')) with (stores st') in H0.
      apply (f_equal length) in H0.
      rewrite length_app in H0. cbn [length] in H0. lia.
  - intros st2 H. unfold step in H. destruct (storing st'); [discriminate|].
    simplify_eq. split; reflexivity.
Qed.

(** When the backend refuses the credential the attempt ends there:
    the setup flag is cleared, one error is shown, no connection or
    channel is created and nothing is retried. *)
Lemma credential_refusal_resets st i st' :
  step st (CredentialReturned i None) = Some st' ->
  settingUpSession st' = false
  /\ toasts st' = toasts st ++ ["Failed to start call, please try again"]
  /\ effects st' = effects st ++ [ToastError "Failed to start call, please try again"]
  /\ isSessionActive st' = isSessionActive st
  /\ dataChannel st' = dataChannel st
  /\ peerConnection st' = peerConnection st
  /\ sessionId st' = sessionId st
  /\ starts st' = <[i := Returned]> (starts st).
Proof.
  intros H. step_cases H; simpl_stores; split_and!; reflexivity.
Qed.

(** A rejected [getUserMedia] ends [startSession] with an uncaught
    error and touches nothing else. *)
Lemma media_refusal_frame st i key pc e st' :
  starts st !! i = Some (AwaitMedia key pc) ->
  step st (Settled i (Rejected e)) = Some st' ->
  settingUpSession st' = settingUpSession st
  /\ sessionId st' = sessionId st
  /\ toasts st' = toasts st
  /\ effects st' = effects st ++ [Uncaught e].
Proof.
  intros Hi H. unfold step in H. rewrite Hi in H.
  cbv beta iota delta [on_rejected] in H. simplify_eq.
  destruct st. simpl_stores. split_and!; reflexivity.
Qed.

(** C3. The credential is received and the microphone is then
    refused: [startSession] ends with an uncaught error; the setup
    flag stays set, the session identifier stays assigned and no
    notification is shown.  (A refused credential, in contrast, clears
    the flag and shows one notification.) *)
Theorem microphone_refusal_leaves_setup_pending :
  (exists st,
      run (init Scenarios.persona) Scenarios.microphone_refused = Some st
      /\ settingUpSession st = true
      /\ sessionId st = Some "sess_1"
      /\ toasts st = []
      /\ starts st = [Threw]
      /\ effects st =
           [CallCreateSession Scenarios.persona; CallGetUserMedia;
            Uncaught "NotAllowedError"])
  /\ (exists st,
        run (init Scenarios.persona) Scenarios.credential_refused = Some st
        /\ settingUpSession st = false
        /\ sessionId st = None
        /\ toasts st = ["Failed to start call, please try again"]).
Proof.
  split; eexists; (split; [vm_compute; reflexivity|]); split_and!; reflexivity.
Qed.

(** Counterexample for C2. The user starts a second session
    within the grace delay of a hang-up; the deferred teardown of the
    first session clears the identifier of the second; the events of
    the second session are then in the log at its teardown, and no
    [storeSession] call is made. *)
Lemma teardown_skips_unidentified_log :
  exists st st',
    run (init Scenarios.persona) Scenarios.restart_within_grace = Some st
    /\ sessionData st = [Scenarios.speech_event]
    /\ sessionId st = None
    /\ step st (TimerFire 0) = Some st'
    /\ stores st' = stores st
    /\ sessionData st' = [].
Proof.
  eexists. eexists.
  split; [vm_compute; reflexivity|].
  split_and!; reflexivity.
Qed.

(** Counterexample for C9. Two hang-up events arrive 5 ms
    apart in one session; the second deferred teardown fires while the
    first awaits [storeSession], and the session is stored twice. *)
Lemma overlapping_teardowns_store_twice :
  exists st,
    run (init Scenarios.persona) Scenarios.hang_up_twice = Some st
    /\ stores st =
         [("sess_1", [Scenarios.hang_up_event; Scenarios.hang_up_event], Scenarios.persona);
          ("sess_1", [Scenarios.hang_up_event; Scenarios.hang_up_event], Scenarios.persona)]
    /\ length (List.filter is_new_session Scenarios.hang_up_twice) = 1.
Proof.
  eexists. split; [vm_compute; reflexivity|]. split; reflexivity.
Qed.

(** *** Further properties of the controller *)

Import AudioConnectionLog.

Lemma Forall_drop_listeners (P : conn * closure -> Prop) c l :
  Forall P l -> Forall P (drop_listeners c l).
Proof.
  unfold drop_listeners. induction 1 as [|r l Hr Hl IH]; cbn; [constructor|].
  destruct (negb _); [constructor; assumption|assumption].
Qed.

Lemma listener_of_elem c cl l : listener_of c l = Some cl -> (c, cl) ∈ l.
Proof.
  induction l as [|[c' cl'] l IH]; cbn; [discriminate|].
  destruct (Nat.eqb_spec c' c) as [->|Hne]; intros H.
  - simplify_eq. left.
  - right. auto.
Qed.

Lemma step_listeners_closures st l st' :
  step st l = Some st' ->
  Forall closes_over_own_channel (listeners st) ->
  Forall closes_over_own_channel (listeners st').
Proof.
  intros H Hall. destruct l; step_cases H;
    repeat first [assumption
                 | apply Forall_drop_listeners
                 | apply Forall_app; split
                 | apply Forall_cons; split
                 | apply Forall_nil
                 | reflexivity ].
Qed.

Lemma run_listeners_closures u tr st :
  run (init u) tr = Some st -> Forall closes_over_own_channel (listeners st).
Proof.
  revert tr st. apply (run_ind_r (fun _ st => Forall closes_over_own_channel (listeners st))).
  - constructor.
  - intros tr st l st' _ IH Hstep. eapply step_listeners_closures; eauto.
Qed.

Lemma teardown_closes_channel cl c st :
  cl_dataChannel cl = Some c ->
  exists rest, effects (teardown cl st) = effects st ++ ChannelClose c :: rest.
Proof.
  intros Hc. teardown_cases_of cl st; ctl_red; simplify_eq;
    rewrite <- ?app_assoc; cbn [app]; eexists; reflexivity.
Qed.

(** X1. In every state reached from the initial one, a hang-up event
    received on a channel schedules, 10000 ms later, a teardown whose
    closure holds that same channel: when it runs it closes the channel
    the event came on. *)
Theorem hang_up_closes_its_channel u tr st c ev st' :
  run (init u) tr = Some st ->
  step st (ChannelMessage c (Some ev)) = Some st' ->
  is_hang_up ev = inl true ->
  exists cl,
    timers st' = timers st ++ [{| due := (now st + 10000)%N; env := cl |}]
    /\ cl_dataChannel cl = Some c
    /\ forall st0, ChannelClose c ∈ effects (teardown cl st0).
Proof.
  intros Hrun Hstep Hh.
  pose proof (run_listeners_closures _ _ _ Hrun) as Hall.
  unfold step in Hstep.
  destruct (listener_of c (listeners st)) as [cl|] eqn:El; [|discriminate].
  simplify_eq. exists cl.
  apply listener_of_elem in El.
  rewrite Forall_forall in Hall. specialize (Hall _ El).
  unfold closes_over_own_channel in Hall. cbn [fst snd] in Hall.
  split_and!.
  - unfold on_message. rewrite Hh. reflexivity.
  - exact Hall.
  - intros st0. destruct (teardown_closes_channel cl c st0 Hall) as [rest ->].
    apply elem_of_app. right. left.
Qed.

Lemma step_stores_well_formed st l st' :
  step st l = Some st' ->
  Forall well_formed_store (stores st) -> Forall well_formed_store (stores st').
Proof.
  intros H Hall. destruct (is_teardown l) eqn:Htd.
  - destruct l; try discriminate Htd.
    + apply timer_fire_inv in H as (t & _ & _ & ->).
      destruct (teardown_cases (env t) (set_timers (delete k (timers st)) st))
        as [(_ & Hs & _)|(sid & _ & Hne & Hd & Hs & _)]; rewrite Hs.
      * exact Hall.
      * apply Forall_app. split; [exact Hall|].
        constructor; [|constructor]. split; assumption.
    + unfold step in H. destruct (storing st); [discriminate|]. simplify_eq.
      exact Hall.
  - destruct (step_frame _ _ _ H Htd) as (Hs & _). rewrite Hs. exact Hall.
Qed.

(** X2. Every [storeSession] call the controller ever makes carries a
    non-empty session identifier and at least one event. *)
Theorem stores_are_identified_and_nonempty u tr st sid data info :
  run (init u) tr = Some st ->
  (sid, data, info) ∈ stores st ->
  sid <> "" /\ data <> [].
Proof.
  intros Hrun Hin.
  assert (Hall : Forall well_formed_store (stores st)).
  { clear Hin. revert tr st Hrun.
    apply (run_ind_r (fun _ st => Forall well_formed_store (stores st))).
    - constructor.
    - intros tr st l st' _ IH Hstep. eapply step_stores_well_formed; eauto. }
  rewrite Forall_forall in Hall. exact (Hall _ Hin).
Qed.

Lemma step_creates st l st' :
  step st l = Some st' ->
  creates st' - creates st = length (starts st') - length (starts st)
  /\ creates st <= creates st'
  /\ length (starts st) <= length (starts st')
  /\ creates st' <= creates st + (if is_click l then 1 else 0).
Proof.
  intros H. destruct l; step_cases H; unfold creates; ctl_red;
    rewrite ?List.filter_app, ?length_app, ?length_insert;
    cbn [List.filter is_create length is_click]; lia.
Qed.

(** X3. [createSession] is called once for every call of
    [startSession] and never otherwise: in every run the number of
    [createSession] calls is the number of [startSession] calls begun,
    and it is at most the number of clicks; nothing is retried. *)
Theorem createSession_once_per_start u tr st :
  run (init u) tr = Some st ->
  creates st = length (starts st) /\ creates st <= clicks tr.
Proof.
  revert tr st.
  apply (run_ind_r (fun tr st => creates st = length (starts st) /\ creates st <= clicks tr)).
  - split; reflexivity.
  - intros tr st l st' _ [IH1 IH2] Hstep.
    destruct (step_creates _ _ _ Hstep) as (Hd & Hc & Hs & Hk).
    unfold clicks in *. rewrite List.filter_app, length_app.
    cbn [List.filter]. destruct (is_click l); cbn [length]; lia.
Qed.

(** X4. A rejected await of [startSession] (the microphone, the offer,
    the local description, the request to the speech endpoint, its
    body, the remote description) ends that call with an uncaught
    error and nothing else: no notification is shown, the setup flag,
    the session identifier and the handles stay as they were, and the
    call never resumes. *)
Theorem rejected_await_is_silent st i e st' :
  step st (Settled i (Rejected e)) = Some st' ->
  effects st' = effects st ++ [Uncaught e]
  /\ toasts st' = toasts st
  /\ settingUpSession st' = settingUpSession st
  /\ isSessionActive st' = isSessionActive st
  /\ sessionId st' = sessionId st
  /\ sessionData st' = sessionData st
  /\ dataChannel st' = dataChannel st
  /\ peerConnection st' = peerConnection st
  /\ starts st' !! i = Some Threw
  /\ (forall r, step st' (Settled i r) = None)
  /\ (forall r, step st' (CredentialReturned i r) = None).
Proof.
  intros H.
  assert (Hi : i < length (starts st)).
  { unfold step in H. destruct (starts st !! i) eqn:E; [|discriminate].
    eapply lookup_lt_Some; eauto. }
  assert (Hst : starts st' = <[i := Threw]> (starts st)
                /\ effects st' = effects st ++ [Uncaught e]
                /\ settingUpSession st' = settingUpSession st
                /\ isSessionActive st' = isSessionActive st
                /\ sessionId st' = sessionId st
                /\ sessionData st' = sessionData st
                /\ dataChannel st' = dataChannel st
                /\ peerConnection st' = peerConnection st).
  { clear Hi. step_cases H; split_and!; reflexivity. }
  destruct Hst as (Hs & He & Hset & Hact & Hid & Hd & Hdc & Hpc).
  assert (Hth : starts st' !! i = Some Threw).
  { rewrite Hs. apply list_lookup_insert_eq. exact Hi. }
  split_and!; try assumption.
  - unfold toasts. rewrite He, omap_app. cbn. apply app_nil_r.
  - intros r. unfold step. rewrite Hth. destruct r; reflexivity.
  - intros r. unfold step. rewrite Hth. reflexivity.
Qed.

(** X5. Events that arrive while a teardown awaits [storeSession] are
    appended to the log and then discarded when the call returns: the
    log is emptied and no further [storeSession] call is made for
    them. *)
Theorem events_during_store_are_dropped st tr st1 st2 :
  run st tr = Some st1 ->
  Forall (fun l => is_teardown l = false) tr ->
  step st1 StoreReturned = Some st2 ->
  0 < storing st
  /\ sessionData st1 = sessionData st ++ arrivals tr
  /\ sessionData st2 = []
  /\ stores st2 = stores st.
Proof.
  intros Hrun Hall Hret.
  destruct (run_log _ _ _ Hrun Hall) as (Hlog & Hs & Hg).
  unfold step in Hret. destruct (storing st1) eqn:E; [discriminate|].
  simplify_eq. split_and!.
  - lia.
  - exact Hlog.
  - reflexivity.
  - rewrite <- Hs. reflexivity.
Qed.

End AudioConnectionFacts.

Section Witnesses.
Import AudioConnection Scenarios.

(** The session of [connect]: inactive until its last event, the
    opening of the channel. *)
Lemma active_only_after_open_witness :
  (isSessionActive (after connect) = true -> exists c, ChannelOpen c ∈ connect)
  /\ (isSessionActive (after connect) = false ->
      isSessionActive (after (connect ++ [Click])) = true ->
      exists c, Click = ChannelOpen c).
Proof.
  apply (active_only_after_open persona connect (after connect) Click
           (after (connect ++ [Click]))).
  - vm_compute. reflexivity.
  - vm_compute. reflexivity.
Defined.

(** The teardown of a session stopped by hand with one event in its
    log. *)
Lemma teardown_persists_iff_witness :
  let st := after stop_by_hand in
  let st' := after (stop_by_hand ++ [TimerFire 0]) in
  (exists sid,
      sessionId st = Some sid /\ sid <> "" /\ sessionData st <> []
      /\ stores st' = stores st ++ [(sid, sessionData st, persona)])
  \/ ((sessionId st = None \/ sessionId st = Some "" \/ sessionData st = [])
      /\ stores st' = stores st).
Proof.
  apply (teardown_persists_iff (after stop_by_hand) 0
           {| due := 0; env := {| cl_dataChannel := Some 0; cl_userInfo := persona |} |}
           (after (stop_by_hand ++ [TimerFire 0]))).
  - vm_compute. reflexivity.
  - vm_compute. reflexivity.
Defined.


(** The agent hangs up after one event; two more events arrive within
    the grace delay. *)
Lemma hang_up_stops_after_grace_witness :
  let st := after (connect ++ [ChannelMessage 0 (Some speech_event)]) in
  let cl := {| cl_dataChannel := Some 0; cl_userInfo := persona |} in
  let t := {| due := 10000; env := cl |} in
  let st' := after (connect ++ [ChannelMessage 0 (Some speech_event);
                                ChannelMessage 0 (Some hang_up_event)] ++ trailing) in
  t ∈ timers st'
  /\ step st' (TimerFire 0) = None
  /\ sessionData st' = [speech_event; hang_up_event; transcript_event; speech_event].
Proof.
  intros st cl t st'.
  destruct (hang_up_stops_after_grace st 0 cl hang_up_event trailing st')
    as (_ & _ & _ & _ & Hpending & Hblocked & Hlog & _).
  - vm_compute. reflexivity.
  - vm_compute. reflexivity.
  - vm_compute. reflexivity.
  - vm_compute. reflexivity.
  - vm_compute. reflexivity.
  - vm_compute. reflexivity.
  - split; [exact Hpending|]. split.
    + apply Hblocked. vm_compute. reflexivity.
    + rewrite Hlog; [vm_compute; reflexivity|]. repeat constructor.
Defined.

(** Two hang-ups in one session, the teardowns one after the other:
    one [storeSession] call. *)
Lemma store_at_most_once_witness :
  let st := after connect in
  let st' := after (connect ++ hang_up_twice_serial) in
  length (stores st') <= S (length (stores st))
  /\ (forall k st2, step st' (TimerFire k) = Some st2 ->
        (stores st2 <> stores st' -> sessionId st' <> None)
        /\ (stores st2 = stores st' -> sessionId st2 = None /\ sessionData st2 = []))
  /\ (forall st2, step st' StoreReturned = Some st2 ->
        sessionId st2 = None /\ sessionData st2 = []).
Proof.
  apply (store_at_most_once (after connect) hang_up_twice_serial
           (after (connect ++ hang_up_twice_serial))).
  - vm_compute. reflexivity.
  - vm_compute. reflexivity.
  - repeat constructor.
  - vm_compute. reflexivity.
Defined.

(** Three segment updates, a call end, and one more update that is
  never read. *)
Lemma runMetadataStream_spec_witness :
let upd (l : list nat) := {| LiveCall.p_type := "speaker_segments"; LiveCall.p_data := l |} in
let fin := {| LiveCall.p_type := "call_end"; LiveCall.p_data := [] |} in
let st := {| LiveCall.speakerSegments := []; LiveCall.callEnded := false;
             LiveCall.console := [] |} in
LiveCall.runMetadataStream (Some "call_7")
  {| Eff.items := [upd [1]; upd [1; 2]; upd [1; 2; 3]] ++ fin :: [upd [9]];
     Eff.ending := Eff.EndOfStream |} st =
(inl tt,
 {| LiveCall.speakerSegments := [1; 2; 3];
    LiveCall.callEnded := true;
    LiveCall.console :=
      [] ++ map LiveCall.ConsoleLog [upd [1]; upd [1; 2]; upd [1; 2; 3]]
         ++ [LiveCall.ConsoleLog fin] |}).
Proof.
intros upd fin st.
refine (proj1 (runMetadataStream_spec (Some "call_7")
                 [upd [1]; upd [1; 2]; upd [1; 2; 3]] [upd [9]] fin
                 Eff.EndOfStream st _ _) _).
- reflexivity.
- repeat constructor.
- reflexivity.
Defined.

End Witnesses.

Section StringFacts.

Lemma append_cons (x : ascii) (a b : string) : String x a +:+ b = String x (a +:+ b).
Proof. reflexivity. Qed.

Lemma append_nil_l (b : string) : "" +:+ b = b.
Proof. reflexivity. Qed.

Lemma append_assoc (a b c : string) : (a +:+ b) +:+ c = a +:+ (b +:+ c).
Proof.
  induction a as [|x a IH]; [reflexivity|].
  rewrite !append_cons, IH. reflexivity.
Qed.

Lemma append_nil_r (a : string) : a +:+ "" = a.
Proof.
  induction a as [|x a IH]; [reflexivity|].
  rewrite append_cons, IH. reflexivity.
Qed.

Lemma length_append (a b : string) :
  String.length (a +:+ b) = String.length a + String.length b.
Proof.
  induction a as [|x a IH]; [reflexivity|].
  rewrite append_cons. cbn [String.length]. rewrite IH. reflexivity.
Qed.

Lemma append_eq_nil (a b : string) : a +:+ b = "" -> a = "" /\ b = "".
Proof.
  destruct a; [rewrite append_nil_l; auto|rewrite append_cons; discriminate].
Qed.

Lemma substring_prefix (a b : string) :
  String.substring 0 (String.length a) (a +:+ b) = a.
Proof.
  induction a as [|x a IH].
  - rewrite append_nil_l. destruct b; reflexivity.
  - rewrite append_cons. cbn [String.length String.substring]. rewrite IH. reflexivity.
Qed.

End StringFacts.

Section MatchFacts.
Import Js JsMatch.

Lemma matches_class p s :
  matches (RClass p) s = true <-> exists c, s = String c "" /\ p c = true.
Proof.
  destruct s as [|c [|d s]]; cbn.
  - split; [discriminate|]. intros (c & H & _). discriminate.
  - destruct (p c) eqn:E; cbn; split; eauto; try discriminate.
    intros (c' & H & Hp). simplify_eq. congruence.
  - split.
    + destruct (p c); cbn; rewrite matches_none; discriminate.
    + intros (c' & H & _). discriminate.
Qed.

(** A concatenation matches exactly the strings that split into a
    match of each part. *)
Lemma matches_seq r1 r2 s :
  matches (RSeq r1 r2) s = true <->
  exists s1 s2, s = s1 +:+ s2 /\ matches r1 s1 = true /\ matches r2 s2 = true.
Proof.
  revert r1. induction s as [|c s IH]; intros r1.
  - cbn. rewrite andb_true_iff. split.
    + intros [H1 H2]. exists "", "". auto.
    + intros (s1 & s2 & H & H1 & H2). symmetry in H.
      apply append_eq_nil in H as [-> ->]. auto.
  - cbn [matches deriv]. destruct (nullable r1) eqn:En.
    + rewrite matches_alt, orb_true_iff, IH. split.
      * intros [(s1 & s2 & -> & H1 & H2)|H].
        -- exists (String c s1), s2. auto.
        -- exists "", (String c s). auto.
      * intros (s1 & s2 & H & H1 & H2). destruct s1 as [|c' s1].
        -- right. rewrite append_nil_l in H. subst s2. exact H2.
        -- left. rewrite append_cons in H. simplify_eq. exists s1, s2. auto.
    + rewrite IH. split.
      * intros (s1 & s2 & -> & H1 & H2). exists (String c s1), s2. auto.
      * intros (s1 & s2 & H & H1 & H2). destruct s1 as [|c' s1].
        -- cbn in H1. congruence.
        -- rewrite append_cons in H. simplify_eq. exists s1, s2. auto.
Qed.

Lemma match_prefix_sound r s m rest :
  match_prefix r s = Some (m, rest) -> s = m +:+ rest /\ matches r m = true.
Proof.
  revert r m rest. induction s as [|c s IH]; intros r m rest; cbn.
  - destruct (nullable r) eqn:En; [|discriminate].
    intros H. simplify_eq. auto.
  - destruct (match_prefix (deriv c r) s) as [[m' rest']|] eqn:E.
    + intros H. simplify_eq. destruct (IH _ _ _ E) as [-> Hm]. auto.
    + destruct (nullable r) eqn:En; [|discriminate].
      intros H. simplify_eq. auto.
Qed.

Lemma match_prefix_complete r s m rest :
  s = m +:+ rest -> matches r m = true -> is_Some (match_prefix r s).
Proof.
  revert r m. induction s as [|c s IH]; intros r m Hs Hm.
  - symmetry in Hs. apply append_eq_nil in Hs as [-> ->].
    cbn in *. rewrite Hm. eauto.
  - cbn. destruct m as [|c' m].
    + cbn in Hm. rewrite Hm. destruct (match_prefix (deriv c r) s) as [[? ?]|]; eauto.
    + rewrite append_cons in Hs. injection Hs as Hc Hs. subst c'. cbn in Hm.
      destruct (IH (deriv c r) m Hs Hm) as [[m' rest'] ->]. eauto.
Qed.

(** Every match of a global search is a non-empty string that the
    pattern matches. *)
Lemma match_all_from_matches r s k m :
  m ∈ match_all_from r s k -> matches r m = true /\ m <> "".
Proof.
  revert k. induction s as [|c s IH]; intros k; cbn [match_all_from].
  - intros H. inversion H.
  - destruct k as [|k]; [|apply IH].
    destruct (match_prefix r (String c s)) as [[[|a m'] rest]|] eqn:E;
      try apply IH.
    intros H. apply elem_of_cons in H as [->|H]; [|eapply IH; eauto].
    apply match_prefix_sound in E as [_ Hm]. split; [exact Hm|discriminate].
Qed.

Lemma match_all_from_skip r m post :
  match_all_from r (m +:+ post) (String.length m) = match_all_from r post 0.
Proof.
  induction m as [|c m IH].
  - rewrite append_nil_l. reflexivity.
  - rewrite append_cons. cbn [String.length match_all_from]. exact IH.
Qed.

End MatchFacts.

Section FieldsFacts.
Import Js JsMatch JsObject Fields.

Lemma lacks_append c (a b : string) : lacks c (a +:+ b) = lacks c a && lacks c b.
Proof.
  unfold lacks. induction a as [|x a IH]; [reflexivity|].
  rewrite append_cons. cbn [all_chars]. rewrite IH, andb_assoc. reflexivity.
Qed.

Lemma is_char_eq a c : is_char a c = true -> c = a.
Proof. unfold is_char. intros H. apply Ascii.eqb_eq in H. exact H. Qed.

(** The strings the placeholder pattern matches: an opening brace, one
    or more characters other than a closing brace, a closing brace. *)
Lemma matches_placeholder m :
  matches placeholder_pattern m = true <->
  exists f, m = String "{" (f +:+ "}") /\ f <> "" /\ lacks "}" f = true.
Proof.
  unfold placeholder_pattern. rewrite matches_seq. split.
  - intros (s1 & s2 & -> & H1 & H2).
    apply matches_class in H1 as (c & -> & Hc). apply is_char_eq in Hc. subst c.
    apply matches_seq in H2 as (a & b & -> & Ha & Hb).
    rewrite matches_plus_class in Ha. destruct a as [|x a]; [discriminate|].
    apply matches_class in Hb as (d & -> & Hd). apply is_char_eq in Hd. subst d.
    exists (String x a). split; [reflexivity|]. split; [discriminate|exact Ha].
  - intros (f & -> & Hne & Hl). exists "{", (f +:+ "}").
    split; [reflexivity|]. split.
    + apply matches_class. exists "{"%char. split; reflexivity.
    + apply matches_seq. exists f, "}". split; [reflexivity|]. split.
      * rewrite matches_plus_class. destruct f; [congruence|exact Hl].
      * apply matches_class. exists "}"%char. split; reflexivity.
Qed.

(** The first closing brace of a string is where it is. *)
Lemma close_brace_split f1 f2 r1 r2 :
  lacks "}" f1 = true -> lacks "}" f2 = true ->
  f1 +:+ String "}" r1 = f2 +:+ String "}" r2 -> f1 = f2 /\ r1 = r2.
Proof.
  revert f2. induction f1 as [|x f1 IH]; intros [|y f2] H1 H2 H;
    rewrite ?append_nil_l, ?append_cons in H.
  - simplify_eq. auto.
  - injection H as Hc _. subst y. cbn in H2. discriminate.
  - injection H as Hc _. subst x. cbn in H1. discriminate.
  - injection H as Hc H. subst y.
    unfold lacks in *. cbn [all_chars] in H1, H2.
    apply andb_prop in H1 as [_ H1]. apply andb_prop in H2 as [_ H2].
    destruct (IH f2 H1 H2 H) as [-> ->]. auto.
Qed.

(** At most one prefix of a string matches the placeholder pattern, so
    that the search finds the same match whichever way the engine
    tries the candidates. *)
Lemma placeholder_match_unique m1 m2 r1 r2 :
  matches placeholder_pattern m1 = true ->
  matches placeholder_pattern m2 = true ->
  m1 +:+ r1 = m2 +:+ r2 -> m1 = m2.
Proof.
  intros H1 H2 E.
  apply matches_placeholder in H1 as (f1 & -> & _ & Hl1).
  apply matches_placeholder in H2 as (f2 & -> & _ & Hl2).
  rewrite !append_cons, !append_assoc in E. injection E as E.
  change ("}" +:+ r1) with (String "}" r1) in E.
  change ("}" +:+ r2) with (String "}" r2) in E.
  destruct (close_brace_split _ _ _ _ Hl1 Hl2 E) as [-> _]. reflexivity.
Qed.

Lemma match_prefix_placeholder f post :
  f <> "" -> lacks "}" f = true ->
  match_prefix placeholder_pattern (String "{" (f +:+ String "}" post)) =
  Some (String "{" (f +:+ "}"), post).
Proof.
  intros Hne Hl.
  destruct (match_prefix_complete placeholder_pattern
              (String "{" (f +:+ String "}" post)) (String "{" (f +:+ "}")) post)
    as [[m rest] E].
  - rewrite append_cons, append_assoc. reflexivity.
  - apply matches_placeholder. eauto.
  - rewrite E. destruct (match_prefix_sound _ _ _ _ E) as [Hs Hm].
    apply matches_placeholder in Hm as (f' & -> & _ & Hl').
    rewrite append_cons, append_assoc in Hs. injection Hs as Hs.
    change ("}" +:+ rest) with (String "}" rest) in Hs.
    destruct (close_brace_split _ _ _ _ Hl Hl' Hs) as [-> ->]. reflexivity.
Qed.

Lemma match_prefix_needs_open c s a m rest :
  match_prefix placeholder_pattern (String c s) = Some (String a m, rest) ->
  c = "{"%char.
Proof.
  intros E. apply match_prefix_sound in E as [Hs Hm].
  apply matches_placeholder in Hm as (f & Hf & _).
  rewrite append_cons in Hs. congruence.
Qed.

Lemma match_all_skip_text pre s :
  lacks "{" pre = true ->
  match_all placeholder_pattern (pre +:+ s) = match_all placeholder_pattern s.
Proof.
  unfold match_all. induction pre as [|c pre IH]; intros Hl; [reflexivity|].
  unfold lacks in Hl. cbn [all_chars] in Hl. apply andb_prop in Hl as [Hc Hl].
  rewrite append_cons. cbn [match_all_from].
  destruct (match_prefix placeholder_pattern (String c (pre +:+ s)))
    as [[[|a m] rest]|] eqn:E; try (apply IH; exact Hl).
  apply match_prefix_needs_open in E. subst c. discriminate.
Qed.

Lemma match_all_at_placeholder f post :
  f <> "" -> lacks "}" f = true ->
  match_all placeholder_pattern (String "{" (f +:+ String "}" post)) =
  String "{" (f +:+ "}") :: match_all placeholder_pattern post.
Proof.
  intros Hne Hl. unfold match_all. cbn [match_all_from].
  rewrite (match_prefix_placeholder f post Hne Hl). f_equal.
  change (String "}" post) with ("}" +:+ post).
  rewrite <- append_assoc. apply match_all_from_skip.
Qed.

Lemma slice_inner_braces f : slice_inner 1 1 (String "{" (f +:+ "}")) = f.
Proof.
  unfold slice_inner. cbn [String.length]. rewrite length_append. cbn [String.length].
  replace (S (String.length f + 1) - 1 - 1) with (String.length f) by lia.
  cbn [String.substring]. apply substring_prefix.
Qed.

(** Every match of a global search lies inside the text. *)
Lemma match_all_from_inside r s k m :
  m ∈ match_all_from r s k -> exists a b, s = a +:+ m +:+ b.
Proof.
  revert k. induction s as [|c s IH]; intros k; cbn [match_all_from].
  - intros H. inversion H.
  - assert (Hrec : forall k', m ∈ match_all_from r s k' ->
                              exists a b, String c s = a +:+ m +:+ b).
    { intros k' H. destruct (IH _ H) as (a & b & ->).
      exists (String c a), b. reflexivity. }
    destruct k as [|k]; [|apply Hrec].
    destruct (match_prefix r (String c s)) as [[[|a0 m'] rest]|] eqn:E;
      try apply Hrec.
    intros H. apply elem_of_cons in H as [->|H]; [|eapply Hrec; eauto].
    apply match_prefix_sound in E as [Hs _]. exists "", rest. exact Hs.
Qed.

Lemma lacks_cons c x (s : string) :
  lacks c (String x s) = negb (Ascii.eqb x c) && lacks c s.
Proof. reflexivity. Qed.

Lemma placeholder_has_braces f :
  lacks "{" (String "{" (f +:+ "}")) = false
  /\ lacks "}" (String "{" (f +:+ "}")) = false.
Proof.
  split.
  - rewrite lacks_cons. reflexivity.
  - rewrite lacks_cons, lacks_append.
    change (lacks "}" "}") with false. rewrite !andb_false_r. reflexivity.
Qed.

(** X6. Every name that [extractFields] takes from a text is non-empty
    and contains no closing brace. *)
Theorem extract_names_shape text f :
  f ∈ extract_names text -> f <> "" /\ lacks "}" f = true.
Proof.
  unfold extract_names, match_all. intros H.
  apply list_elem_of_fmap in H as (m & -> & Hm).
  apply match_all_from_matches in Hm as [Hm _].
  apply matches_placeholder in Hm as (f & -> & Hne & Hl).
  rewrite slice_inner_braces. auto.
Qed.

(** X7. The names are taken from left to right: text without an
    opening brace is passed over, and a placeholder [{f}] (with [f]
    non-empty and free of closing braces) yields the name [f], after
    which the search goes on behind its closing brace. *)
Theorem extract_names_placeholder pre f post :
  lacks "{" pre = true -> f <> "" -> lacks "}" f = true ->
  extract_names (pre +:+ String "{" (f +:+ String "}" post)) =
  f :: extract_names post.
Proof.
  intros Hpre Hne Hl. unfold extract_names.
  rewrite (match_all_skip_text _ _ Hpre), (match_all_at_placeholder _ _ Hne Hl).
  cbn [map]. rewrite slice_inner_braces. reflexivity.
Qed.

(** X8. A text without an opening brace, or without a closing brace,
    has no names. *)
Theorem extract_names_none text :
  lacks "{" text = true \/ lacks "}" text = true -> extract_names text = [].
Proof.
  intros H. unfold extract_names.
  destruct (match_all placeholder_pattern text) as [|m l] eqn:E; [reflexivity|].
  exfalso.
  assert (Hin : m ∈ match_all_from placeholder_pattern text 0).
  { unfold match_all in E. rewrite E. left. }
  destruct (match_all_from_inside _ _ _ _ Hin) as (a & b & ->).
  apply match_all_from_matches in Hin as [Hm _].
  apply matches_placeholder in Hm as (f & -> & _ & _).
  destruct (placeholder_has_braces f) as [Ho Hc].
  rewrite !lacks_append, Ho, Hc, !andb_false_r in H.
  destruct H; discriminate.
Qed.

Lemma set_lookup k v o j :
  set k v o !! j =
  if String.eqb k "__proto__" then o !! j
  else if String.eqb k j then Some v else o !! j.
Proof.
  unfold set. destruct (String.eqb k "__proto__"); [reflexivity|].
  destruct (String.eqb_spec k j) as [->|Hne].
  - apply lookup_insert_eq.
  - apply lookup_insert_ne. exact Hne.
Qed.

Lemma foldl_fields_lookup fields prev acc k :
  foldl (fun newFields field => set field (carried_over field prev) newFields)
        acc fields !! k =
  if bool_decide (k ∈ fields) && negb (String.eqb k "__proto__")
  then Some (carried_over k prev)
  else acc !! k.
Proof.
  revert acc. induction fields as [|x l IH]; intros acc; cbn [foldl].
  - reflexivity.
  - rewrite IH, set_lookup.
    destruct (String.eqb_spec x k) as [->|Hne].
    + rewrite (bool_decide_eq_true_2 (k ∈ k :: l)) by left.
      destruct (String.eqb k "__proto__"); cbn; [|destruct (bool_decide (k ∈ l)); reflexivity].
      rewrite andb_false_r. reflexivity.
    + assert (Hb : bool_decide (k ∈ x :: l) = bool_decide (k ∈ l)).
      { apply bool_decide_ext. rewrite elem_of_cons. split; [|auto].
        intros [->|H]; [congruence|exact H]. }
      rewrite Hb. destruct (bool_decide (k ∈ l) && negb (String.eqb k "__proto__"));
        [reflexivity|]. destruct (String.eqb x "__proto__"); reflexivity.
Qed.

Lemma update_fields_lookup fields prev k :
  update_fields fields prev !! k =
  if bool_decide (k ∈ fields) && negb (String.eqb k "__proto__")
  then Some (carried_over k prev)
  else None.
Proof.
  unfold update_fields. rewrite foldl_fields_lookup.
  destruct (bool_decide (k ∈ fields) && negb (String.eqb k "__proto__"));
    [reflexivity|apply lookup_empty].
Qed.

Lemma inherited_proto : inherited "__proto__" = true.
Proof. reflexivity. Qed.

(** X9. For a name that is not a member of [Object.prototype], the
    new sample fields hold it exactly when the text refers to it, with
    the value it had before, or the empty string if it had none;
    values of names the text no longer refers to are dropped. *)
Theorem extractFields_lookup text prev k :
  inherited k = false ->
  extractFields text prev !! k =
  if bool_decide (k ∈ extract_names text)
  then Some (default (VString "") (prev !! k))
  else None.
Proof.
  intros Hk. unfold extractFields. rewrite update_fields_lookup.
  assert (Hp : String.eqb k "__proto__" = false).
  { destruct (String.eqb_spec k "__proto__") as [->|]; [|reflexivity].
    rewrite inherited_proto in Hk. discriminate. }
  rewrite Hp, andb_true_r.
  destruct (bool_decide (k ∈ extract_names text)); [|reflexivity].
  unfold carried_over, has_property, get. rewrite Hk.
  destruct (prev !! k); reflexivity.
Qed.

(** X10. Extracting again from the same text changes nothing: the
    sample fields computed from a text are a fixed point of the
    extraction from that text. *)
Theorem extractFields_idempotent text prev :
  extractFields text (extractFields text prev) = extractFields text prev.
Proof.
  unfold extractFields. set (fields := extract_names text).
  apply map_eq. intros k. rewrite !update_fields_lookup.
  destruct (bool_decide (k ∈ fields)) eqn:Ek; [|reflexivity].
  destruct (String.eqb k "__proto__") eqn:Ep; [reflexivity|].
  cbn [andb negb]. f_equal.
  unfold carried_over at 1. unfold has_property, get.
  rewrite update_fields_lookup, Ek, Ep. reflexivity.
Qed.

End FieldsFacts.

Section CallPhoneNumberFacts.
Import Eff PhoneNumber CallPhoneNumber.

(** The validity flag is the validator's answer on the number shown. *)
Lemma step_validity st e st' :
  step st e = Some st' ->
  match phoneNumber st with
  | Some p => isValidPhoneNumber st = validatePhoneNumber p
  | None => isValidPhoneNumber st = false
  end ->
  match phoneNumber st' with
  | Some p => isValidPhoneNumber st' = validatePhoneNumber p
  | None => isValidPhoneNumber st' = false
  end.
Proof.
  destruct e as [v| |ok]; cbn [step].
  - intros H _. simplify_eq. reflexivity.
  - destruct (disabled st); [discriminate|]. intros H Hinv. simplify_eq.
    unfold onClick. destruct (phoneNumber st) as [p|] eqn:Ep; [|rewrite Ep; exact Hinv].
    destruct (truthy (Some p)); cbn; rewrite ?Ep; exact Hinv.
  - destruct (awaiting st); [discriminate|]. intros H Hinv. simplify_eq. exact Hinv.
Qed.

Lemma run_validity es st :
  run init es = Some st ->
  match phoneNumber st with
  | Some p => isValidPhoneNumber st = validatePhoneNumber p
  | None => isValidPhoneNumber st = false
  end.
Proof.
  assert (Hgen : forall st0,
             match phoneNumber st0 with
             | Some p => isValidPhoneNumber st0 = validatePhoneNumber p
             | None => isValidPhoneNumber st0 = false
             end ->
             run st0 es = Some st ->
             match phoneNumber st with
             | Some p => isValidPhoneNumber st = validatePhoneNumber p
             | None => isValidPhoneNumber st = false
             end).
  { induction es as [|e es IH]; intros st0 Hinv Hrun; cbn in Hrun.
    - simplify_eq. exact Hinv.
    - destruct (step st0 e) as [st1|] eqn:E; [|discriminate].
      eapply IH; [|exact Hrun]. eapply step_validity; eauto. }
  apply Hgen. reflexivity.
Qed.

(** X11. In every state the form reaches, a click on the enabled
    button hands to [handleCallPhoneNumber] at most the number shown in
    the input; that number is non-empty, and it passes the validator
    unless a call is already being placed (the button is then enabled
    whatever the input holds). *)
Theorem click_submits_shown_number es st st' :
  run init es = Some st ->
  step st ClickButton = Some st' ->
  submitted st' = submitted st
  \/ exists p,
      phoneNumber st = Some p /\ p <> ""
      /\ submitted st' = submitted st ++ [p]
      /\ isCalling st' = true
      /\ (validatePhoneNumber p = true \/ isCalling st = true).
Proof.
  intros Hrun Hstep. pose proof (run_validity _ _ Hrun) as Hinv.
  cbn [step] in Hstep. destruct (disabled st) eqn:Ed; [discriminate|].
  simplify_eq. unfold onClick.
  destruct (phoneNumber st) as [p|] eqn:Ep; [|left; reflexivity].
  destruct (truthy (Some p)) eqn:Et; [|left; reflexivity].
  right. exists p. split_and!; try reflexivity.
  - intros ->. discriminate.
  - unfold disabled in Ed. rewrite Ep in Ed. cbn [andb] in Ed.
    destruct (isCalling st); [right; reflexivity|left].
    rewrite andb_true_r in Ed. apply negb_false_iff in Ed. congruence.
Qed.

End CallPhoneNumberFacts.

Section AgentSelectionFacts.
Import AgentConfig AgentSelection.

(** X12. After a successful save, and after a successful creation, the
    agent shown in the editor is the record the backend returned, and
    choosing its base in the agent selector shows it again; a creation
    leaves every other record as it was. *)
Theorem returned_agent_is_shown r nv st :
  newVersion st = Some nv ->
  activeAgent (handleSaveVersion (Some r) st) = Some r
  /\ activeAgent (selectAgent (base_id r) (handleSaveVersion (Some r) st)) = Some r
  /\ activeAgent (handleCreateNewAgent (Some r) st) = Some r
  /\ activeAgent (selectAgent (base_id r) (handleCreateNewAgent (Some r) st)) = Some r
  /\ agents (handleCreateNewAgent (Some r) st) = r :: agents st.
Proof.
  intros Hnv. unfold handleSaveVersion, handleCreateNewAgent. rewrite Hnv.
  unfold selectAgent, activeAgent. cbn [agents agentId List.find].
  rewrite !String.eqb_refl. cbn [agents agentId List.find].
  rewrite !String.eqb_refl. split_and!; reflexivity.
Qed.

End AgentSelectionFacts.

Section ApiCallsFacts.
Import Eff ApiCalls.

Lemma for_await_yield {A} (xs : list A) e (produced : list A) :
  for_await_items xs e
    (fun payload => Eff.bind (yield payload) (fun _ => ret Continue)) produced =
  (match e with
   | EndOfStream => inl tt
   | StreamThrows err => inr err
   end, produced ++ xs).
Proof.
  revert produced. induction xs as [|x xs IH]; intros produced.
  - cbn. rewrite app_nil_r. destruct e; reflexivity.
  - cbn [for_await_items]. unfold Eff.bind at 1. unfold Eff.bind at 1.
    unfold yield, modify, ret. cbn beta iota.
    rewrite IH, <- app_assoc. reflexivity.
Qed.

(** X13. [streamSpeaker] is transparent: it yields the payloads of the
    underlying stream, in the same order, and ends as that stream
    ends, with the same error if it throws. *)
Theorem streamSpeaker_transparent {A} (ajax_stream : stream A) :
  streamSpeaker ajax_stream = ajax_stream.
Proof.
  unfold streamSpeaker, generator, for_await. rewrite for_await_yield.
  destruct ajax_stream as [xs [|err]]; reflexivity.
Qed.

(** X14. The API client never throws. Whatever the request does,
    [createSession], [storeSession] and [outboundCall] return its
    value, or [null] after logging the error it threw; [hangUp] returns
    whether it did not throw; and a hang-up handler then shows exactly
    one notification, of success or of failure accordingly, while
    without a call id it makes no request and shows nothing. *)
Theorem api_client_never_throws {A} (req : M (S:=state) A) (st : state) :
  let outcome :=
    match req st with
    | (inl r, st1) => (Some r, st1)
    | (inr e, st1) => (None, console_error e st1)
    end in
  createSession req st = (inl (fst outcome), snd outcome)
  /\ storeSession req st = (inl (fst outcome), snd outcome)
  /\ outboundCall req st = (inl (fst outcome), snd outcome)
  /\ hangUp req st = (inl (bool_decide (is_Some (fst outcome))), snd outcome)
  /\ handleCallHangUp req st =
     (inl tt,
      toast (if bool_decide (is_Some (fst outcome))
             then AgentConfig.ToastSuccess "Hanging up call..."
             else AgentConfig.ToastError "Failed to hang up call, please try again")
            (snd outcome))
  /\ handleHangUp (Some "") req st = (inl tt, st)
  /\ handleHangUp None req st = (inl tt, st).
Proof.
  unfold createSession, storeSession, outboundCall, nullable_request,
    handleHangUp, handleCallHangUp, hangUp, try_catch, Eff.bind, modify, ret.
  cbn [truthy negb String.eqb].
  destruct (req st) as [[r|e] st1]; cbn; split_and!; reflexivity.
Qed.

End ApiCallsFacts.

Section LiveCallDisplayFacts.
Import Eff LiveCall LiveCallDisplay.
Context {SpeakerSegment : Type}.

Lemma step_callEnded (st : state SpeakerSegment) e st' :
  step st e = Some st' -> callEnded st = true -> callEnded st' = true.
Proof.
  destruct e as [v|i p|i|o|s]; cbn [step].
  - destruct (option_string_eqb v (phoneCallId st)); [discriminate|].
    intros H. simplify_eq. unfold on_phoneCallId. destruct (truthy v); auto.
  - destruct (consumers st !! i) as [[|]|]; try discriminate.
    intros H. simplify_eq. unfold on_payload. destruct (is_call_end p); auto.
  - destruct (consumers st !! i) as [[|]|]; try discriminate.
    intros H. simplify_eq. auto.
  - intros H. simplify_eq. unfold onOpenChange. destruct o; auto.
  - intros H. simplify_eq. auto.
Qed.

(** X15. The ended flag is never taken back: once a call-end payload
    has been read it stays set across every later event of the
    component, including the closing of the sheet and the arrival of
    the id of another call. *)
Theorem callEnded_is_never_reset (st : state SpeakerSegment) es st' :
  run st es = Some st' -> callEnded st = true -> callEnded st' = true.
Proof.
  revert st. induction es as [|e es IH]; intros st Hrun Hended; cbn in Hrun.
  - simplify_eq. exact Hended.
  - destruct (step st e) as [st1|] eqn:E; [|discriminate].
    eapply IH; [exact Hrun|]. eapply step_callEnded; eauto.
Qed.

Lemma step_consumer_running (st : state SpeakerSegment) e st' i :
  step st e = Some st' -> ~ stops i e ->
  consumers st !! i = Some true -> consumers st' !! i = Some true.
Proof.
  destruct e as [v|j p|j|o|s]; cbn [step stops]; intros H Hns Hi.
  - destruct (option_string_eqb v (phoneCallId st)); [discriminate|].
    simplify_eq. unfold on_phoneCallId. destruct (truthy v); cbn; [|exact Hi].
    apply lookup_app_l_Some. exact Hi.
  - destruct (consumers st !! j) as [[|]|] eqn:Ej; try discriminate.
    simplify_eq. unfold on_payload. destruct (is_call_end p) eqn:Ep; cbn; [|exact Hi].
    rewrite list_lookup_insert_ne; [exact Hi|]. intros ->. apply Hns. auto.
  - destruct (consumers st !! j) as [[|]|] eqn:Ej; try discriminate.
    simplify_eq. cbn. rewrite list_lookup_insert_ne; [exact Hi|]. intros ->. auto.
  - simplify_eq. unfold onOpenChange. destruct o; exact Hi.
  - simplify_eq. exact Hi.
Qed.

(** X16. A consumer leaves its loop only through its own stream (a
    call-end payload, the end of the stream, an error): no other event,
    neither the closing of the sheet nor the id of another call nor the
    stream of another consumer, stops it, and the next update it reads
    replaces the displayed segments, also after the sheet was closed
    and the segments cleared. *)
Theorem consumer_outlives_the_sheet (st : state SpeakerSegment) es st' i p :
  run st es = Some st' ->
  consumers st !! i = Some true ->
  Forall (fun e => ~ stops i e) es ->
  is_call_end p = false ->
  consumers st' !! i = Some true
  /\ exists st'',
      step (onOpenChange false st') (Payload i p) = Some st''
      /\ speakerSegments (onOpenChange false st') = []
      /\ speakerSegments st'' = p_data p
      /\ phoneCallId st'' = None.
Proof.
  intros Hrun Hi Hall Hp.
  assert (Hrunning : consumers st' !! i = Some true).
  { revert st Hrun Hi. induction Hall as [|e es He Hall IH]; intros st Hrun Hi;
      cbn in Hrun.
    - simplify_eq. exact Hi.
    - destruct (step st e) as [st1|] eqn:E; [|discriminate].
      eapply IH; [exact Hrun|]. eapply step_consumer_running; eauto. }
  split; [exact Hrunning|].
  eexists. cbn [step onOpenChange consumers]. rewrite Hrunning.
  split; [reflexivity|]. unfold on_payload. rewrite Hp. split_and!; reflexivity.
Qed.

End LiveCallDisplayFacts.

Section AgentEditorFacts.
Import AgentConfig AgentSelection AgentEditor.



Lemma listed_deactivate i l : listed i l -> listed i (map deactivate l).
Proof.
  intros (a & Ha & Hi). exists (deactivate a). split; [|exact Hi].
  apply list_elem_of_fmap. exists a. auto.
Qed.






End AgentEditorFacts.

Section PhoneMoreFacts.
Import Eff Phone.

(** X18. However the speaker stream goes, placing a call shows no
    notification (an error of the stream is only logged), and the audio
    element, when there is one, is left pointing at the streaming
    endpoint of the call after the controller is back to idle. *)
Theorem placed_call_leaves_audio_source (phone_call_id : string)
        (s : stream SpeakerEvent) (st : state) :
  exists st',
    handleCallPhoneNumber (Some phone_call_id) s st = (inl tt, st')
    /\ toasts st' = toasts st
    /\ audio st' =
         match audio st with
         | Some _ => Some ("/api/v1/phone/stream-audio/" +:+ phone_call_id)
         | None => None
         end
    /\ phoneCallId st' = None.
Proof.
  unfold handleCallPhoneNumber, speaker_task, try_catch, for_await.
  unfold Eff.bind at 1 2 3. unfold modify at 1 2 3. cbn beta iota.
  unfold Eff.bind at 1. rewrite for_await_speaker.
  destruct (ending s) as [|err]; cbn; eexists; split_and!; reflexivity.
Qed.

End PhoneMoreFacts.

Section MoreWitnesses.
Import AudioConnection AudioConnectionLog Scenarios MoreScenarios.

Lemma hang_up_closes_its_channel_witness :
  exists cl,
    timers (after (connect ++ [ChannelMessage 0 (Some hang_up_event)])) =
      timers (after connect) ++ [{| due := (now (after connect) + 10000)%N; env := cl |}]
    /\ cl_dataChannel cl = Some 0
    /\ forall st0, ChannelClose 0 ∈ effects (teardown cl st0).
Proof.
  apply (hang_up_closes_its_channel persona connect (after connect) 0 hang_up_event
           (after (connect ++ [ChannelMessage 0 (Some hang_up_event)]))).
  - vm_compute. reflexivity.
  - vm_compute. reflexivity.
  - vm_compute. reflexivity.
Defined.

Lemma stores_are_identified_and_nonempty_witness :
  "sess_1" <> "" /\ [speech_event] <> [].
Proof.
  apply (stores_are_identified_and_nonempty persona (stop_by_hand ++ [TimerFire 0])
           (after (stop_by_hand ++ [TimerFire 0])) "sess_1" [speech_event] persona).
  - vm_compute. reflexivity.
  - vm_compute. left.
Defined.

Lemma createSession_once_per_start_witness :
  creates (after restart_within_grace) = length (starts (after restart_within_grace))
  /\ creates (after restart_within_grace) <= clicks restart_within_grace.
Proof.
  apply (createSession_once_per_start persona restart_within_grace
           (after restart_within_grace)).
  vm_compute. reflexivity.
Defined.

Lemma rejected_await_is_silent_witness :
  let st := after awaiting_microphone in
  let st' := after microphone_refused in
  effects st' = effects st ++ [Uncaught "NotAllowedError"]
  /\ toasts st' = toasts st
  /\ settingUpSession st' = settingUpSession st
  /\ isSessionActive st' = isSessionActive st
  /\ sessionId st' = sessionId st
  /\ sessionData st' = sessionData st
  /\ dataChannel st' = dataChannel st
  /\ peerConnection st' = peerConnection st
  /\ starts st' !! 0 = Some Threw
  /\ (forall r, step st' (Settled 0 r) = None)
  /\ (forall r, step st' (CredentialReturned 0 r) = None).
Proof.
  apply (rejected_await_is_silent (after awaiting_microphone) 0 "NotAllowedError"
           (after microphone_refused)).
  vm_compute. reflexivity.
Defined.

Lemma events_during_store_are_dropped_witness :
  let st := after teardown_awaiting in
  let tr := [ChannelMessage 1 (Some speech_event)] in
  0 < storing st
  /\ sessionData (after (teardown_awaiting ++ tr)) = sessionData st ++ arrivals tr
  /\ sessionData (after (teardown_awaiting ++ tr ++ [StoreReturned])) = []
  /\ stores (after (teardown_awaiting ++ tr ++ [StoreReturned])) = stores st.
Proof.
  apply (events_during_store_are_dropped (after teardown_awaiting)
           [ChannelMessage 1 (Some speech_event)]
           (after (teardown_awaiting ++ [ChannelMessage 1 (Some speech_event)]))
           (after (teardown_awaiting ++ [ChannelMessage 1 (Some speech_event)]
                     ++ [StoreReturned]))).
  - vm_compute. reflexivity.
  - repeat constructor.
  - vm_compute. reflexivity.
Defined.

Lemma extract_names_shape_witness :
  "name" <> "" /\ JsMatch.lacks "}" "name" = true.
Proof.
  apply (extract_names_shape "Hi {name}, you are {age}" "name").
  vm_compute. left.
Defined.

Lemma extract_names_placeholder_witness :
  Fields.extract_names ("Hi " +:+ String "{" ("name" +:+ String "}" ", you are {age}")) =
  "name" :: Fields.extract_names ", you are {age}".
Proof.
  apply (extract_names_placeholder "Hi " "name" ", you are {age}").
  - reflexivity.
  - discriminate.
  - reflexivity.
Defined.

Lemma extract_names_none_witness : Fields.extract_names "Hi {name, you are" = [].
Proof.
  apply (extract_names_none "Hi {name, you are"). right. reflexivity.
Defined.

Lemma extractFields_lookup_witness :
  Fields.extractFields "Hi {name}, you are {age}" sample_fields !! "name" =
  (if bool_decide ("name" ∈ Fields.extract_names "Hi {name}, you are {age}")
   then Some (default (JsObject.VString "") (sample_fields !! "name"))
   else None).
Proof.
  apply (extractFields_lookup "Hi {name}, you are {age}" sample_fields "name").
  reflexivity.
Defined.

Lemma click_submits_shown_number_witness :
  let st := form_after typing in
  let st' := form_after (typing ++ [CallPhoneNumber.ClickButton]) in
  CallPhoneNumber.submitted st' = CallPhoneNumber.submitted st
  \/ exists p,
      CallPhoneNumber.phoneNumber st = Some p /\ p <> ""
      /\ CallPhoneNumber.submitted st' = CallPhoneNumber.submitted st ++ [p]
      /\ CallPhoneNumber.isCalling st' = true
      /\ (PhoneNumber.validatePhoneNumber p = true
          \/ CallPhoneNumber.isCalling st = true).
Proof.
  apply (click_submits_shown_number typing (form_after typing)
           (form_after (typing ++ [CallPhoneNumber.ClickButton]))).
  - vm_compute. reflexivity.
  - vm_compute. reflexivity.
Defined.

Lemma returned_agent_is_shown_witness :
  AgentSelection.activeAgent (AgentConfig.handleSaveVersion (Some nurse_v2) editing)
  = Some nurse_v2.
Proof.
  apply (returned_agent_is_shown nurse_v2 nurse_edit editing). reflexivity.
Defined.

Lemma callEnded_is_never_reset_witness :
  LiveCallDisplay.callEnded
    (live_after (live_events
                   ++ [LiveCallDisplay.Payload 0 call_end_payload;
                       LiveCallDisplay.OpenChange false;
                       LiveCallDisplay.PhoneCallIdProp (Some "call_8")])) = true.
Proof.
  apply (callEnded_is_never_reset
           (live_after (live_events ++ [LiveCallDisplay.Payload 0 call_end_payload]))
           [LiveCallDisplay.OpenChange false;
            LiveCallDisplay.PhoneCallIdProp (Some "call_8")]).
  - vm_compute. reflexivity.
  - vm_compute. reflexivity.
Defined.

Lemma consumer_outlives_the_sheet_witness :
  let st' := live_after (live_events ++ [LiveCallDisplay.OpenChange false]) in
  let p := {| LiveCall.p_type := "speaker_segments"; LiveCall.p_data := [1; 2] |} in
  LiveCallDisplay.consumers st' !! 0 = Some true
  /\ exists st'',
      LiveCallDisplay.step (LiveCallDisplay.onOpenChange false st')
        (LiveCallDisplay.Payload 0 p) = Some st''
      /\ LiveCallDisplay.speakerSegments (LiveCallDisplay.onOpenChange false st') = []
      /\ LiveCallDisplay.speakerSegments st'' = LiveCall.p_data p
      /\ LiveCallDisplay.phoneCallId st'' = None.
Proof.
  apply (consumer_outlives_the_sheet (live_after live_events)
           [LiveCallDisplay.OpenChange false]
           (live_after (live_events ++ [LiveCallDisplay.OpenChange false])) 0).
  - vm_compute. reflexivity.
  - vm_compute. reflexivity.
  - repeat constructor. intros H. exact H.
  - reflexivity.
Defined.



End MoreWitnesses.
